(** * withHistory: the undo/redo reducer enhancer of the editor

    A shallow embedding of [editor/utils/with-history/index.js] (both the
    buffered and the merged-present revision), of the [counter] reducer of
    its test-suite and of the two history selectors of
    [editor/store/selectors.js].

    The enhancer compares states with [===] and hands back either the very
    object it was given or an object literal.  Object identity is therefore
    part of the model: history records live in a store and are named by
    their address, an object literal allocates, and [return state] returns
    the address that came in. *)

From Stdlib Require Import ZArith.
From stdpp Require Import base option list strings gmap.

Open Scope Z_scope.

(** ** JavaScript values and arrays *)

(** A document state is opaque to the enhancer: it is [undefined] or a
    reference to an object owned by the base reducer.  [===] on such values
    is equality of references. *)
Inductive value : Type :=
| undefined
| ref (l : nat).

#[global] Instance value_eq_dec : EqDecision value.
Proof. solve_decision. Defined.

(** [array.length] *)
Definition len {A} (a : list A) : Z := Z.of_nat (length a).

(** [array[ i ]]: reading outside of the array yields [undefined]. *)
Definition index (a : list value) (i : Z) : value :=
  if decide (i < 0) then undefined else default undefined (a !! Z.to_nat i).

(** The relative index of [Array.prototype.slice]: a negative argument
    counts from the end, and the result is clamped to the array. *)
Definition relative (n i : Z) : Z :=
  if decide (i < 0) then Z.max (n + i) 0 else Z.min i n.

(** [array.slice( start, stop )] *)
Definition slice {A} (a : list A) (start stop : Z) : list A :=
  let k := relative (len a) start in
  let final := relative (len a) stop in
  take (Z.to_nat (final - k)) (drop (Z.to_nat k) a).

(** ** Actions and options *)

(** An action object: its [type] property ([None] when the property is
    missing, as in the empty action) and its remaining properties. *)
Record action : Type := Action {
  type : option string;
  payload : list (string * value)
}.

(** The object literal [{}] that seeds the initial state. *)
Definition empty_action : action := {| type := None; payload := [] |}.

Record Options : Type := { resetTypes : option (list string) }.

(** The default [options = {}]. *)
Definition no_options : Options := {| resetTypes := None |}.

(** lodash [includes( collection, value )] on an optional array of strings:
    a missing collection includes nothing. *)
Definition includes (collection : option (list string)) (v : option string) : bool :=
  match collection, v with
  | Some l, Some t => bool_decide (t ∈ l)
  | _, _ => false
  end.

(** ** The store *)

Definition addr : Type := nat.

(** [world] is whatever the base reducer owns (the objects behind document
    references); [objects] holds the history records, each at the address
    it was allocated at. *)
Record store (W O : Type) : Type := Store {
  world : W;
  objects : list O
}.
Arguments Store {W O} _ _.
Arguments world {W O} _.
Arguments objects {W O} _.

(** Computations that read and extend the store; [None] is a thrown
    [TypeError] (destructuring something that is not a history record). *)
Definition M (W O A : Type) : Type := store W O → option (A * store W O).

#[global] Instance M_ret {W O} : MRet (M W O) :=
  λ A a σ, Some (a, σ).
#[global] Instance M_bind {W O} : MBind (M W O) :=
  λ A B k m σ, match m σ with
               | Some (a, σ') => k a σ'
               | None => None
               end.

(** An object literal: a new record at a fresh address. *)
Definition alloc {W O} (o : O) : M W O addr :=
  λ σ, Some (length (objects σ), Store (world σ) (objects σ ++ [o])).

(** Reading the record behind a reference. *)
Definition deref {W O} (p : addr) : M W O O :=
  λ σ, match objects σ !! p with
       | Some o => Some (o, σ)
       | None => None
       end.

(** A call of the base reducer: it may allocate in its own world, and never
    touches the history records. *)
Definition call {W O} (f : W → value * W) : M W O value :=
  λ σ, let '(v, w) := f (world σ) in Some (v, Store w (objects σ)).

(** The type of base reducers. *)
Definition Reducer (W : Type) : Type := value → action → W → value * W.

(** What a dispatch loop does with an enhanced reducer: the state returned
    for one action is the state passed with the next. *)
Fixpoint dispatchAll {W O} (reducer : option addr → action → M W O addr)
    (state : option addr) (actions : list action) : M W O (option addr) :=
  match actions with
  | [] => mret state
  | a :: rest => s ← reducer state a; dispatchAll reducer (Some s) rest
  end.

(** ** The merged-present enhancer (the later revision) *)

Module Merged.

Record HistoryState : Type := {
  past : list value;
  present : value;
  future : list value
}.

Section withHistory.
Context {W : Type}.
Variable reducer : Reducer W.
Variable options : Options.

#[local] Abbreviation M := (M W HistoryState).

(** The function that [withHistory] returns, with the [initialState] it
    closes over as a parameter. *)
Definition enhanced (initialState : addr) (state : option addr) (action : action) : M addr :=
  let state := default initialState state in
  s ← deref state;
  let '(Build_HistoryState past present future) := s in
  if decide (type action = Some "UNDO"%string) then
    if decide (index past (len past - 1) ≠ present) then
      alloc {| past := past;
               present := index past (len past - 1);
               future := present :: future |}
    else if decide (len past < 2) then
      mret state
    else
      alloc {| past := slice past 0 (len past - 1);
               present := index past (len past - 2);
               future := present :: future |}
  else if decide (type action = Some "REDO"%string) then
    if decide (len future = 0) then
      mret state
    else
      alloc {| past := past ++ [index future 0];
               present := index future 0;
               future := slice future 1 (len future) |}
  else if decide (type action = Some "CREATE_UNDO_LEVEL"%string) then
    if decide (index past (len past - 1) = present) then
      mret state
    else
      alloc {| past := past ++ [present];
               present := present;
               future := [] |}
  else
    nextPresent ← call (reducer present action);
    if includes (resetTypes options) (type action) then
      alloc {| past := [nextPresent];
               present := nextPresent;
               future := [] |}
    else if decide (present = nextPresent) then
      mret state
    else
      alloc {| past := past;
               present := nextPresent;
               future := future |}.

Definition withHistory : M (option addr → action → M addr) :=
  initialPresent ← call (reducer undefined empty_action);
  initialState ← alloc {| past := [initialPresent];
                          present := initialPresent;
                          future := [] |};
  mret (enhanced initialState).

End withHistory.

End Merged.

(** ** The buffered enhancer (the earlier revision) *)

Module Buffered.

Record HistoryState : Type := {
  past : list value;
  present : value;
  buffer : value;
  future : list value
}.

Section withHistory.
Context {W : Type}.
Variable reducer : Reducer W.
Variable options : Options.

#[local] Abbreviation M := (M W HistoryState).

Definition enhanced (initialState : addr) (state : option addr) (action : action) : M addr :=
  let state := default initialState state in
  s ← deref state;
  let '(Build_HistoryState past present buffer future) := s in
  if decide (type action = Some "UNDO"%string) then
    if decide (present ≠ buffer) then
      alloc {| past := slice past 0 (len past - 1);
               present := present;
               buffer := present;
               future := buffer :: future |}
    else if decide (len past = 0) then
      mret state
    else
      alloc {| past := slice past 0 (len past - 1);
               present := index past (len past - 1);
               buffer := index past (len past - 1);
               future := present :: future |}
  else if decide (type action = Some "REDO"%string) then
    if decide (len future = 0) then
      mret state
    else
      alloc {| past := past ++ [present];
               present := index future 0;
               buffer := index future 0;
               future := slice future 1 (len future) |}
  else if decide (type action = Some "CREATE_UNDO_LEVEL"%string) then
    if decide (present = buffer) then
      mret state
    else
      alloc {| past := past ++ [present];
               present := buffer;
               buffer := buffer;
               future := [] |}
  else
    nextBuffer ← call (reducer buffer action);
    if includes (resetTypes options) (type action) then
      alloc {| past := [];
               present := nextBuffer;
               buffer := nextBuffer;
               future := [] |}
    else if decide (buffer = nextBuffer) then
      mret state
    else
      alloc {| past := past;
               present := present;
               buffer := nextBuffer;
               future := future |}.

(** The two fields of the initial record come from two calls of the base
    reducer. *)
Definition withHistory : M (option addr → action → M addr) :=
  present0 ← call (reducer undefined empty_action);
  buffer0 ← call (reducer undefined empty_action);
  initialState ← alloc {| past := [];
                          present := present0;
                          buffer := buffer0;
                          future := [] |};
  mret (enhanced initialState).

End withHistory.

End Buffered.

(** ** The selectors *)

(** The part of the global application state that the history selectors
    read: [state.editor] is the record kept by the enhanced reducer. *)
Record State : Type := {
  editor : Merged.HistoryState;
  isSavingMetaBoxes : bool
}.

Definition hasEditorUndo (state : State) : bool :=
  bool_decide (len (Merged.past (editor state)) > 0).

Definition hasEditorRedo (state : State) : bool :=
  bool_decide (len (Merged.future (editor state)) > 0).

(** ** The block selectors *)

(** Block UIDs are strings; where the state or an argument may hold [null]
    instead, the value is an [option string].  Such a value is truthy when
    it is a string that is not empty. *)
Definition truthy (v : option string) : bool :=
  match v with
  | Some s => bool_decide (s ≠ ""%string)
  | None => false
  end.

(** [v || d] *)
Definition or_else (v d : option string) : option string :=
  if truthy v then v else d.

(** [array.indexOf( x )]: the position of the first element that is [x],
    or -1. *)
Definition indexOf (a : list string) (x : option string) : Z :=
  match list_find (λ y, x = Some y) a with
  | Some (i, _) => Z.of_nat i
  | None => -1
  end.

(** [object[ key ]] on an object given by its own properties, in the order
    in which [for ... in] enumerates them (the order of insertion: the keys
    are block UIDs or the empty string, never array indices).  Only own
    properties are looked up: a key that names a member of
    [Object.prototype] and is no own property reads as missing here, where
    the code reads the inherited member. *)
Fixpoint property {V} (object : list (string * V)) (key : string) : option V :=
  match object with
  | [] => None
  | (k, v) :: rest => if decide (k = key) then Some v else property rest key
  end.

(** lodash [includes( array, value )], the array possibly undefined. *)
Definition includesIn (array : option (list string)) (v : option string) : bool :=
  match array with
  | Some a => bool_decide (indexOf a v > -1)
  | None => false
  end.

Module Blocks.

(** [state.editor.present], [state.editor] and [state.blockSelection], and
    the part of the global application state that the block selectors
    read.  [blockOrder] maps a root UID (the empty string at top level) to
    the UIDs of its children. *)
Record Present : Type := { blockOrder : list (string * list string) }.
Record Editor : Type := { present : Present }.
Record BlockSelection : Type := {
  start : option string;
  end_ : option string
}.
Record State : Type := {
  editor : Editor;
  blockSelection : BlockSelection
}.

Definition DEFAULT_BLOCK_ORDER : list string := [].

Definition getBlockOrder (state : State) (rootUID : option string) : list string :=
  default DEFAULT_BLOCK_ORDER
    (property (blockOrder (present (editor state)))
              (default ""%string (or_else rootUID (Some ""%string)))).

Definition getBlockCount (state : State) (rootUID : option string) : Z :=
  len (getBlockOrder state rootUID).

Definition getBlockIndex (state : State) (uid rootUID : option string) : Z :=
  indexOf (getBlockOrder state rootUID) uid.

(** The [for ( const rootUID in blockOrder )] loop of [getBlockRootUID],
    over the keys still to be visited. *)
Fixpoint rootAmong (blockOrder : list (string * list string)) (keys : list string)
    (uid : option string) : option string :=
  match keys with
  | [] => None
  | rootUID :: rest =>
      if includesIn (property blockOrder rootUID) uid then Some rootUID
      else rootAmong blockOrder rest uid
  end.

Definition getBlockRootUID (state : State) (uid : option string) : option string :=
  let blockOrder := blockOrder (present (editor state)) in
  rootAmong blockOrder blockOrder.*1 uid.

(** The selector is memoized on [blockOrder], [start] and [end], which are
    all that it reads; what is modelled is the value it returns. *)
Definition getMultiSelectedBlockUids (state : State) : list string :=
  let start := start (blockSelection state) in
  let end_ := end_ (blockSelection state) in
  if decide (start = end_) then []
  else
    match getBlockRootUID state start with
    | None => []
    | Some rootUID =>
        let blockOrder := getBlockOrder state (Some rootUID) in
        let startIndex := indexOf blockOrder start in
        let endIndex := indexOf blockOrder end_ in
        if decide (startIndex > endIndex) then
          slice blockOrder endIndex (startIndex + 1)
        else
          slice blockOrder startIndex (endIndex + 1)
    end.

Definition getFirstMultiSelectedBlockUid (state : State) : option string :=
  or_else (head (getMultiSelectedBlockUids state)) None.

Definition getLastMultiSelectedBlockUid (state : State) : option string :=
  or_else (last (getMultiSelectedBlockUids state)) None.

Definition isFirstMultiSelectedBlock (state : State) (uid : string) : bool :=
  bool_decide (getFirstMultiSelectedBlockUid state = Some uid).

Definition isBlockMultiSelected (state : State) (uid : option string) : bool :=
  bool_decide (indexOf (getMultiSelectedBlockUids state) uid ≠ -1).

Definition getMultiSelectedBlocksStartUid (state : State) : option string :=
  let start := start (blockSelection state) in
  let end_ := end_ (blockSelection state) in
  if decide (start = end_) then None else or_else start None.

Definition getMultiSelectedBlocksEndUid (state : State) : option string :=
  let start := start (blockSelection state) in
  let end_ := end_ (blockSelection state) in
  if decide (start = end_) then None else or_else end_ None.

Definition isBlockSelected (state : State) (uid : string) : bool :=
  let start := start (blockSelection state) in
  let end_ := end_ (blockSelection state) in
  if decide (start ≠ end_) then false
  else bool_decide (start = Some uid).

Definition isBlockWithinSelection (state : State) (uid : option string) : bool :=
  if negb (truthy uid) then false
  else
    let uids := getMultiSelectedBlockUids state in
    let index := indexOf uids uid in
    bool_decide (index > -1) && bool_decide (index < len uids - 1).

Definition getSelectedBlockCount (state : State) : Z :=
  let multiSelectedBlockCount := len (getMultiSelectedBlockUids state) in
  if decide (multiSelectedBlockCount ≠ 0) then multiSelectedBlockCount
  else if truthy (start (blockSelection state)) then 1 else 0.

(** The same state with the two ends of the selection exchanged. *)
Definition reversed (state : State) : State :=
  {| editor := editor state;
     blockSelection := {| start := end_ (blockSelection state);
                          end_ := start (blockSelection state) |} |}.

(** A document of three top-level blocks, the second with two children,
    and a selection from the first block to the third. *)
Definition sample : State :=
  {| editor := {| present := {| blockOrder :=
       [(""%string, ["a"; "b"; "c"]%string); ("b"%string, ["b1"; "b2"]%string)] |} |};
     blockSelection := {| start := Some "a"%string; end_ := Some "c"%string |} |}.

(** The same document with a selection from the third top-level block to
    a child of the second, and with the first block alone selected. *)
Definition across : State :=
  {| editor := editor sample;
     blockSelection := {| start := Some "c"%string; end_ := Some "b1"%string |} |}.
Definition single : State :=
  {| editor := editor sample;
     blockSelection := {| start := Some "a"%string; end_ := Some "a"%string |} |}.

End Blocks.

(** ** The post selectors *)

(** The values held by the attributes of a post.  Numbers are the integers
    (identifiers, counts); an object is known by its reference only. *)
Inductive jsval : Type :=
| JUndefined
| JNull
| JBool (b : bool)
| JNumber (n : Z)
| JString (s : string)
| JObject (l : nat).

#[global] Instance jsval_eq_dec : EqDecision jsval.
Proof. solve_decision. Defined.

(** The conversion to a boolean that [!], [&&] and [?:] apply. *)
Definition toBoolean (v : jsval) : bool :=
  match v with
  | JUndefined | JNull => false
  | JBool b => b
  | JNumber n => bool_decide (n ≠ 0)
  | JString s => bool_decide (s ≠ ""%string)
  | JObject _ => true
  end.

(** [object[ name ]] on an object with values of the above kind: a missing
    property reads as [undefined]. *)
Definition prop (object : gmap string jsval) (name : string) : jsval :=
  default JUndefined (object !! name).

Module Post.

(** [state.editor.present] (its [edits] may be missing), [state.editor] and
    the part of the global application state that the post selectors read. *)
Record Present : Type := { edits : option (gmap string jsval) }.
Record Editor : Type := { present : Present }.
Record State : Type := {
  editor : Editor;
  currentPost : gmap string jsval
}.

Definition getCurrentPost (state : State) : gmap string jsval :=
  currentPost state.

(** lodash [get( state, [ 'editor', 'present', 'edits' ], {} )] *)
Definition getPostEdits (state : State) : gmap string jsval :=
  default ∅ (edits (present (editor state))).

Definition getEditedPostAttribute (state : State) (attributeName : string) : jsval :=
  let edits := getPostEdits state in
  if decide (prop edits attributeName = JUndefined) then
    prop (currentPost state) attributeName
  else
    prop edits attributeName.

Definition getEditedPostTitle (state : State) : jsval :=
  let editedTitle := prop (getPostEdits state) "title" in
  if decide (editedTitle ≠ JUndefined) then editedTitle
  else
    let currentPost := getCurrentPost state in
    if toBoolean (prop currentPost "title") && toBoolean (prop currentPost "title") then
      prop currentPost "title"
    else JString "".

(** [state.editor.present.edits.excerpt] is read without a default: with
    no [edits] the selector throws, which is [None]. *)
Definition getEditedPostExcerpt (state : State) : option jsval :=
  edits ← edits (present (editor state));
  Some (if decide (prop edits "excerpt" = JUndefined) then
          prop (currentPost state) "excerpt"
        else
          prop edits "excerpt").

(** A saved draft with a title, of which the excerpt has been edited. *)
Definition sample : State :=
  {| editor := {| present := {| edits := Some {[ "excerpt"%string := JString "short" ]} |} |};
     currentPost := {[ "title"%string := JString "Hello" ]} |}.

(** The same post in a state without [edits]. *)
Definition unedited : State :=
  {| editor := {| present := {| edits := None |} |};
     currentPost := {[ "title"%string := JString "Hello" ]} |}.

End Post.

(** ** The reducer of the test-suite *)

(** [counter]: its states are objects [{ count }]; the world maps the
    address of each such object to its [count].  The default parameter
    [state = { count: 0 }] and the literal [{ count: state.count + 1 }]
    both allocate. *)
Definition counter : Reducer (list Z) :=
  λ state action w,
    let '(state, w) :=
      match state with
      | undefined => (ref (length w), w ++ [0])
      | _ => (state, w)
      end in
    if decide (type action = Some "INCREMENT"%string) then
      let count := match state with
                   | ref l => default 0 (w !! l)
                   | undefined => 0
                   end in
      (ref (length w), w ++ [count + 1])
    else (state, w).

(** [state.count] of a document state of [counter]. *)
Definition count (w : list Z) (v : value) : option Z :=
  match v with
  | ref l => w !! l
  | undefined => None
  end.

Definition act (t : string) : action := {| type := Some t; payload := [] |}.
Definition INCREMENT : action := act "INCREMENT".
Definition UNDO : action := act "UNDO".
Definition REDO : action := act "REDO".
Definition CREATE_UNDO_LEVEL : action := act "CREATE_UNDO_LEVEL".
Definition RESET_HISTORY : action := act "RESET_HISTORY".

(** The store in which the test-suite starts: no objects at all. *)
Definition empty_store {O} : store (list Z) O := Store [] [].

(** The records that the merged-present test-suite builds, in order: after
    initialisation, [INCREMENT] and [CREATE_UNDO_LEVEL]. *)
Definition test_store : store (list Z) Merged.HistoryState :=
  Store [0; 1]
    [ {| Merged.past := [ref 0]; Merged.present := ref 0; Merged.future := [] |};
      {| Merged.past := [ref 0]; Merged.present := ref 1; Merged.future := [] |};
      {| Merged.past := [ref 0; ref 1]; Merged.present := ref 1; Merged.future := [] |} ].

(** ** Vocabulary of the properties *)

(** No provisional edit is pending: the last record of [past] is the very
    [present] (the test [past[ past.length - 1 ] === present] of the
    source). *)
Definition committed (s : Merged.HistoryState) : Prop :=
  index (Merged.past s) (len (Merged.past s) - 1) = Merged.present s.

#[global] Instance committed_dec s : Decision (committed s).
Proof. unfold committed. apply _. Defined.

(** The three action types that the enhancer handles by itself. *)
Definition control (t : option string) : Prop :=
  t = Some "UNDO"%string ∨ t = Some "REDO"%string ∨ t = Some "CREATE_UNDO_LEVEL"%string.

(** [m] run in [σ] returns a reference to a record satisfying [Q]. *)
Definition returns {W O} (m : M W O addr) (σ : store W O) (Q : O → Prop) : Prop :=
  ∃ p' σ' s', m σ = Some (p', σ') ∧ objects σ' !! p' = Some s' ∧ Q s'.

(** [UNDO] and then [REDO], as two successive dispatches. *)
Definition undo_redo {W} (reducer : Reducer W) (options : Options)
    (initialState p : addr) (undo redo : action) : M W Merged.HistoryState addr :=
  p1 ← Merged.enhanced reducer options initialState (Some p) undo;
  Merged.enhanced reducer options initialState (Some p1) redo.

(** Options that list a control action among the reset types. *)
Definition undo_resets : Options := {| resetTypes := Some ["UNDO"%string] |}.
Definition redo_resets : Options := {| resetTypes := Some ["REDO"%string] |}.
Definition reset_options : Options := {| resetTypes := Some ["RESET_HISTORY"%string] |}.

(** The records of the test "should perform undo of buffer": after
    initialisation, [INCREMENT] and [UNDO].  The last one has nothing
    further to undo and one state to redo. *)
Definition undone_store : store (list Z) Merged.HistoryState :=
  Store [0; 1]
    [ {| Merged.past := [ref 0]; Merged.present := ref 0; Merged.future := [] |};
      {| Merged.past := [ref 0]; Merged.present := ref 1; Merged.future := [] |};
      {| Merged.past := [ref 0]; Merged.present := ref 0; Merged.future := [ref 1] |} ].

(** A global application state whose editor is freshly initialised. *)
Definition fresh_state : State :=
  {| editor := {| Merged.past := [ref 0]; Merged.present := ref 0; Merged.future := [] |};
     isSavingMetaBoxes := false |}.

(** The correspondence between a record of the buffered enhancer and a
    record of the merged-present enhancer: the merged past is the buffered
    past followed by the buffered present, and the merged present is the
    buffer. *)
Definition corresponds (b : Buffered.HistoryState) (m : Merged.HistoryState) : Prop :=
  Merged.past m = Buffered.past b ++ [Buffered.present b] ∧
  Merged.present m = Buffered.buffer b ∧
  Merged.future m = Buffered.future b.

#[global] Instance corresponds_dec b m : Decision (corresponds b m).
Proof. unfold corresponds. apply _. Defined.

(** The outcome of one dispatch in each revision: records that correspond
    in stores with the same world, and the input object returned by one
    revision exactly when it is by the other. *)
Definition in_step {W} (reducer : Reducer W) (options : Options) (initB initM : addr)
    (σb : store W Buffered.HistoryState) (pb : addr)
    (σm : store W Merged.HistoryState) (pm : addr) (a : action) : Prop :=
  ∃ pb' σb' b' pm' σm' m',
    Buffered.enhanced reducer options initB (Some pb) a σb = Some (pb', σb') ∧
    Merged.enhanced reducer options initM (Some pm) a σm = Some (pm', σm') ∧
    objects σb' !! pb' = Some b' ∧ objects σm' !! pm' = Some m' ∧
    world σb' = world σm' ∧ corresponds b' m' ∧
    (pb' = pb ↔ pm' = pm).

(** The actions of the scenario on which the two revisions part: an edit,
    a checkpoint, a second edit, and [UNDO] of that second edit. *)
Definition undo_of_second_edit : list action :=
  [INCREMENT; CREATE_UNDO_LEVEL; INCREMENT; UNDO].

(** The test-suite's way of running a reducer: [withHistory( counter )],
    then one dispatch per action, the first one on an undefined state. *)
Definition run_merged (options : Options) (actions : list action) :=
  (r ← Merged.withHistory counter options; dispatchAll r None actions) empty_store.
Definition run_buffered (options : Options) (actions : list action) :=
  (r ← Buffered.withHistory counter options; dispatchAll r None actions) empty_store.

(** The record a run ends in. *)
Definition final_merged (options : Options) (actions : list action)
    : option Merged.HistoryState :=
  match run_merged options actions with
  | Some (Some p, σ) => objects σ !! p
  | _ => None
  end.
Definition final_buffered (options : Options) (actions : list action)
    : option Buffered.HistoryState :=
  match run_buffered options actions with
  | Some (Some p, σ) => objects σ !! p
  | _ => None
  end.

(** What [toEqual] sees of the record a run ends in: the [count] of every
    document state in it. *)
Definition view_merged (options : Options) (actions : list action)
    : option (list (option Z) * option Z * list (option Z)) :=
  match run_merged options actions with
  | Some (Some p, σ) =>
      s ← objects σ !! p;
      Some (count (world σ) <$> Merged.past s,
            count (world σ) (Merged.present s),
            count (world σ) <$> Merged.future s)
  | _ => None
  end.
Definition view_buffered (options : Options) (actions : list action)
    : option (list (option Z) * option Z * option Z * list (option Z)) :=
  match run_buffered options actions with
  | Some (Some p, σ) =>
      s ← objects σ !! p;
      Some (count (world σ) <$> Buffered.past s,
            count (world σ) (Buffered.present s),
            count (world σ) (Buffered.buffer s),
            count (world σ) <$> Buffered.future s)
  | _ => None
  end.

(** An action that reaches the base reducer and is no reset: neither one of
    the three control actions nor listed in [resetTypes]. *)
Definition ordinary (options : Options) (a : action) : Prop :=
  ¬ control (type a) ∧ includes (resetTypes options) (type a) = false.

(** What the bare reducer computes from a document state over a sequence of
    actions. *)
Fixpoint reduceAll {W} (reducer : Reducer W) (v : value) (actions : list action)
    (w : W) : value * W :=
  match actions with
  | [] => (v, w)
  | a :: rest => let '(v', w') := reducer v a w in reduceAll reducer v' rest w'
  end.

(** [UNDO] or [REDO]. *)
Definition navigation (a : action) : Prop :=
  type a = Some "UNDO"%string ∨ type a = Some "REDO"%string.

(** Three successive dispatches. *)
Definition dispatch3 {W} (reducer : Reducer W) (options : Options)
    (initialState p : addr) (a1 a2 a3 : action) : M W Merged.HistoryState addr :=
  p1 ← Merged.enhanced reducer options initialState (Some p) a1;
  p2 ← Merged.enhanced reducer options initialState (Some p1) a2;
  Merged.enhanced reducer options initialState (Some p2) a3.

(** [UNDO] and then [REDO] in the buffered revision. *)
Definition buffered_undo_redo {W} (reducer : Reducer W) (options : Options)
    (initialState p : addr) (undo redo : action) : M W Buffered.HistoryState addr :=
  p1 ← Buffered.enhanced reducer options initialState (Some p) undo;
  Buffered.enhanced reducer options initialState (Some p1) redo.


(** Records of the two revisions over the same world: one edit
    checkpointed, a second edit pending or not. *)
Definition buffered_store : store (list Z) Buffered.HistoryState :=
  Store [0; 1; 2]
    [ {| Buffered.past := [ref 0]; Buffered.present := ref 1;
         Buffered.buffer := ref 1; Buffered.future := [] |};
      {| Buffered.past := [ref 0]; Buffered.present := ref 1;
         Buffered.buffer := ref 2; Buffered.future := [] |};
      {| Buffered.past := []; Buffered.present := ref 0;
         Buffered.buffer := ref 0; Buffered.future := [ref 1] |};
      {| Buffered.past := []; Buffered.present := ref 0;
         Buffered.buffer := ref 0; Buffered.future := [] |} ].
Definition merged_store : store (list Z) Merged.HistoryState :=
  Store [0; 1; 2]
    [ {| Merged.past := [ref 0; ref 1]; Merged.present := ref 1; Merged.future := [] |};
      {| Merged.past := [ref 0; ref 1]; Merged.present := ref 2; Merged.future := [] |} ].

(** A reducer over the world of [counter] that forgets every document. *)
Definition forgetful : Reducer (list Z) :=
  λ state action w, (undefined, w).

(** ** Arrays *)

Lemma len_app {A} (l k : list A) : len (l ++ k) = len l + len k.
Proof. unfold len. rewrite length_app. lia. Qed.

Lemma len_nonneg {A} (l : list A) : 0 ≤ len l.
Proof. unfold len. lia. Qed.

Lemma len_zero {A} (l : list A) : len l = 0 ↔ l = [].
Proof. unfold len. destruct l; simpl; split; intros; (done || lia). Qed.

Lemma index_of_nat (l : list value) (n : nat) :
  index l (Z.of_nat n) = default undefined (l !! n).
Proof. unfold index. case_decide; [lia|]. by rewrite Nat2Z.id. Qed.

Lemma index_snoc (l : list value) (x : value) :
  index (l ++ [x]) (len (l ++ [x]) - 1) = x.
Proof.
  replace (len (l ++ [x]) - 1) with (Z.of_nat (length l))
    by (rewrite len_app; unfold len; simpl; lia).
  rewrite index_of_nat.
  by rewrite lookup_app_r, Nat.sub_diag by lia.
Qed.

Lemma index_last (l : list value) :
  index l (len l - 1) = default undefined (last l).
Proof.
  destruct l as [|y l'] using rev_ind; [done|].
  by rewrite index_snoc, last_snoc.
Qed.

Lemma index_head (x : value) (l : list value) : index (x :: l) 0 = x.
Proof. done. Qed.

Lemma slice_init {A} (l : list A) (x : A) :
  slice (l ++ [x]) 0 (len (l ++ [x]) - 1) = l.
Proof.
  unfold slice, relative. rewrite len_app. pose proof (len_nonneg l).
  change (len [x]) with 1. repeat case_decide; try lia.
  rewrite Z.min_l, Z.min_l by lia.
  replace (Z.to_nat (len l + 1 - 1 - 0)) with (length l) by (unfold len; lia).
  change (Z.to_nat 0) with 0%nat. rewrite drop_0.
  by rewrite take_app_length.
Qed.

Lemma slice_nil {A} : slice (@nil A) 0 (len (@nil A) - 1) = [].
Proof. done. Qed.

Lemma slice_tail {A} (x : A) (l : list A) :
  slice (x :: l) 1 (len (x :: l)) = l.
Proof.
  unfold slice, relative. pose proof (len_nonneg l).
  assert (len (x :: l) = len l + 1) as -> by (unfold len; simpl; lia).
  repeat case_decide; try lia.
  rewrite Z.min_l, Z.min_l by lia.
  change (Z.to_nat 1) with 1%nat. simpl. rewrite drop_0.
  replace (Z.to_nat (len l + 1 - 1)) with (length l) by (unfold len; lia).
  by rewrite firstn_all.
Qed.

Lemma index_before_last (l : list value) (x y : value) :
  index (l ++ [x; y]) (len (l ++ [x; y]) - 2) = x.
Proof.
  replace (len (l ++ [x; y]) - 2) with (Z.of_nat (length l))
    by (rewrite len_app; unfold len; simpl; lia).
  rewrite index_of_nat.
  by rewrite lookup_app_r, Nat.sub_diag by lia.
Qed.

(** ** The store *)

Section StoreFacts.
Context {W O : Type}.
Implicit Types (σ : store W O) (o : O) (p : addr).

Lemma bind_Some {A B} (m : M W O A) (k : A → M W O B) σ a σ' :
  m σ = Some (a, σ') → (m ≫= k) σ = k a σ'.
Proof. unfold mbind, M_bind. by intros ->. Qed.

Lemma deref_Some p σ o : objects σ !! p = Some o → deref p σ = Some (o, σ).
Proof. unfold deref. by intros ->. Qed.

Lemma alloc_lookup σ o :
  objects (Store (world σ) (objects σ ++ [o])) !! length (objects σ) = Some o.
Proof. simpl. by rewrite lookup_app_r, Nat.sub_diag by lia. Qed.

Lemma alloc_fresh σ o p o' :
  objects σ !! p = Some o' → alloc o σ = Some (p, Store (world σ) (objects σ ++ [o])) → False.
Proof.
  intros Hp. unfold alloc. intros [= Heq].
  apply lookup_lt_Some in Hp. lia.
Qed.

Lemma store_eta σ : Store (world σ) (objects σ) = σ.
Proof. by destruct σ. Qed.

Lemma dispatchAll_cons (r : option addr → action → M W O addr) state a rest σ :
  dispatchAll r state (a :: rest) σ =
    match r state a σ with
    | Some (s, σ') => dispatchAll r (Some s) rest σ'
    | None => None
    end.
Proof. done. Qed.
End StoreFacts.

(** ** The merged-present enhancer, one dispatch at a time *)

(** Enter the body of the enhanced reducer at a state that is a record of
    the store. *)
Ltac enter H :=
  unfold Merged.enhanced; simpl default;
  rewrite (bind_Some _ _ _ _ _ (deref_Some _ _ _ H)).

Section MergedSteps.
Context {W : Type} (reducer : Reducer W) (options : Options).
Variable initialState : addr.
Implicit Types (σ : store W Merged.HistoryState) (s : Merged.HistoryState).
Implicit Types (p : addr) (a : action).

#[local] Abbreviation enhanced := (Merged.enhanced reducer options initialState).

(** The base reducer is never consulted for the three control actions, so
    what they return does not depend on it. *)
Lemma undo_cases σ p s a :
  objects σ !! p = Some s → type a = Some "UNDO"%string →
  enhanced (Some p) a σ =
    if decide (committed s) then
      if decide (len (Merged.past s) < 2) then Some (p, σ)
      else alloc {| Merged.past := slice (Merged.past s) 0 (len (Merged.past s) - 1);
                    Merged.present := index (Merged.past s) (len (Merged.past s) - 2);
                    Merged.future := Merged.present s :: Merged.future s |} σ
    else alloc {| Merged.past := Merged.past s;
                  Merged.present := index (Merged.past s) (len (Merged.past s) - 1);
                  Merged.future := Merged.present s :: Merged.future s |} σ.
Proof.
  intros Hp Ha. enter Hp. destruct s as [past present future].
  unfold committed. simpl. rewrite Ha.
  repeat case_decide; done.
Qed.

Lemma redo_cases σ p s a :
  objects σ !! p = Some s → type a = Some "REDO"%string →
  enhanced (Some p) a σ =
    match Merged.future s with
    | [] => Some (p, σ)
    | next :: rest => alloc {| Merged.past := Merged.past s ++ [next];
                               Merged.present := next;
                               Merged.future := rest |} σ
    end.
Proof.
  intros Hp Ha. enter Hp. destruct s as [past present future].
  simpl. rewrite Ha.
  case_decide; [done|]. case_decide; [|done].
  destruct future as [|next rest].
  - by case_decide.
  - case_decide as Hlen; [by apply len_zero in Hlen|].
    by rewrite slice_tail, index_head.
Qed.

Lemma checkpoint_cases σ p s a :
  objects σ !! p = Some s → type a = Some "CREATE_UNDO_LEVEL"%string →
  enhanced (Some p) a σ =
    if decide (committed s) then Some (p, σ)
    else alloc {| Merged.past := Merged.past s ++ [Merged.present s];
                  Merged.present := Merged.present s;
                  Merged.future := [] |} σ.
Proof.
  intros Hp Ha. enter Hp. destruct s as [past present future].
  unfold committed. simpl. rewrite Ha.
  repeat case_decide; done.
Qed.

Lemma edit_cases σ p s a :
  objects σ !! p = Some s → ¬ control (type a) →
  enhanced (Some p) a σ =
    let '(nextPresent, w) := reducer (Merged.present s) a (world σ) in
    if includes (resetTypes options) (type a) then
      alloc {| Merged.past := [nextPresent];
               Merged.present := nextPresent;
               Merged.future := [] |} (Store w (objects σ))
    else if decide (Merged.present s = nextPresent) then
      Some (p, Store w (objects σ))
    else
      alloc {| Merged.past := Merged.past s;
               Merged.present := nextPresent;
               Merged.future := Merged.future s |} (Store w (objects σ)).
Proof.
  intros Hp Ha. enter Hp. destruct s as [past present future].
  unfold control in Ha. simpl.
  repeat (case_decide; [tauto|]).
  unfold mbind, M_bind, call. simpl.
  destruct (reducer present a (world σ)) as [nextPresent w].
  destruct (includes _ _); [done|]. by case_decide.
Qed.

End MergedSteps.

Section MergedLaws.
Context {W : Type} (reducer : Reducer W) (options : Options).
Variable initialState : addr.
Implicit Types (σ : store W Merged.HistoryState) (s : Merged.HistoryState).
Implicit Types (p : addr) (a : action).

#[local] Abbreviation enhanced := (Merged.enhanced reducer options initialState).

(** C4. [UNDO] while a provisional edit is pending (present is not the
    last record of past): the returned state has that last record as its
    present, the old present in front of the old future, and the past it
    had. *)
Theorem undo_provisional σ p s a :
  objects σ !! p = Some s →
  type a = Some "UNDO"%string →
  index (Merged.past s) (len (Merged.past s) - 1) ≠ Merged.present s →
  returns (enhanced (Some p) a) σ (λ s',
    Merged.present s' = index (Merged.past s) (len (Merged.past s) - 1) ∧
    Merged.future s' = Merged.present s :: Merged.future s ∧
    Merged.past s' = Merged.past s).
Proof.
  intros Hp Ha Hne. unfold returns.
  rewrite (undo_cases _ _ _ _ _ _ _ Hp Ha).
  rewrite decide_False by done.
  eexists _, _, _. split; [reflexivity|].
  split; [apply alloc_lookup|]. done.
Qed.

(** C8. At the boundary of the history [UNDO] and [REDO] hand back the
    object they were given: [UNDO] when past has fewer than two records
    and no edit is pending, [REDO] when future is empty. *)
Theorem boundary_noop σ p s a :
  objects σ !! p = Some s →
  (type a = Some "UNDO"%string → len (Merged.past s) < 2 → committed s →
     enhanced (Some p) a σ = Some (p, σ)) ∧
  (type a = Some "REDO"%string → Merged.future s = [] →
     enhanced (Some p) a σ = Some (p, σ)).
Proof.
  intros Hp. split.
  - intros Ha Hlen Hc. rewrite (undo_cases _ _ _ _ _ _ _ Hp Ha).
    by rewrite decide_True, decide_True.
  - intros Ha Hf. rewrite (redo_cases _ _ _ _ _ _ _ Hp Ha). by rewrite Hf.
Qed.

(** C6. [CREATE_UNDO_LEVEL] is idempotent up to object identity: a second
    dispatch returns the object that the first one returned; and when no
    edit is pending already the first dispatch returns its input. *)
Theorem checkpoint_idempotent σ p s a1 a2 :
  objects σ !! p = Some s →
  type a1 = Some "CREATE_UNDO_LEVEL"%string →
  type a2 = Some "CREATE_UNDO_LEVEL"%string →
  (∃ p1 σ1, enhanced (Some p) a1 σ = Some (p1, σ1) ∧
            enhanced (Some p1) a2 σ1 = Some (p1, σ1)) ∧
  (committed s → enhanced (Some p) a1 σ = Some (p, σ)).
Proof.
  intros Hp Ha1 Ha2. rewrite (checkpoint_cases _ _ _ _ _ _ _ Hp Ha1).
  split; [|by intros Hc; rewrite decide_True].
  case_decide as Hc.
  - exists p, σ. split; [done|].
    rewrite (checkpoint_cases _ _ _ _ _ _ _ Hp Ha2). by rewrite decide_True.
  - eexists _, _. split; [reflexivity|].
    rewrite (checkpoint_cases _ _ _ _ _ _ _ (alloc_lookup σ _) Ha2).
    rewrite decide_True; [done|].
    unfold committed. simpl. apply index_snoc.
Qed.

(** C7. An ordinary action (not a control action, not a reset type) on
    which the base reducer returns the present it was given: the enhanced
    reducer returns the object it was given, and allocates no record. *)
Theorem noop_edit_stability σ p s a :
  objects σ !! p = Some s →
  ¬ control (type a) →
  includes (resetTypes options) (type a) = false →
  (reducer (Merged.present s) a (world σ)).1 = Merged.present s →
  enhanced (Some p) a σ =
    Some (p, Store (reducer (Merged.present s) a (world σ)).2 (objects σ)).
Proof.
  intros Hp Ha Hreset Hsame. rewrite (edit_cases _ _ _ _ _ _ _ Hp Ha).
  destruct (reducer _ _ _) as [nextPresent w]. simpl in *.
  rewrite Hreset. by rewrite decide_True.
Qed.

End MergedLaws.

(** ** Reset, the provisional-edit marker and the round trip *)

Section MergedAmended.
Context {W : Type} (reducer : Reducer W) (options : Options).
Variable initialState : addr.
Implicit Types (σ : store W Merged.HistoryState) (s : Merged.HistoryState).
Implicit Types (p : addr) (a : action).

#[local] Abbreviation enhanced := (Merged.enhanced reducer options initialState).

(** C3, amended. An action whose type is a reset type and is none of the
    three control actions replaces the state by a single checkpoint of
    [nextPresent = reducer( present, action )], whatever the history was
    and even when [nextPresent] is the old present. *)
Theorem reset_collapses σ p s a :
  objects σ !! p = Some s →
  includes (resetTypes options) (type a) = true →
  ¬ control (type a) →
  returns (enhanced (Some p) a) σ (λ s',
    s' = {| Merged.past := [(reducer (Merged.present s) a (world σ)).1];
            Merged.present := (reducer (Merged.present s) a (world σ)).1;
            Merged.future := [] |} ∧
    len (Merged.past s') = 1 ∧ len (Merged.future s') = 0).
Proof.
  intros Hp Hreset Ha. unfold returns.
  rewrite (edit_cases _ _ _ _ _ _ _ Hp Ha).
  destruct (reducer _ _ _) as [nextPresent w]. rewrite Hreset. simpl.
  eexists _, _, _. split; [reflexivity|].
  split; [apply (alloc_lookup (Store w (objects σ)))|]. done.
Qed.

(** C10, amended. [UNDO], [CREATE_UNDO_LEVEL] and every action whose type
    is a reset type other than [REDO] return a state without provisional
    edit (present is the last record of past); so does [REDO] whenever
    future is not empty. *)
Theorem marker_cleared σ p s a :
  objects σ !! p = Some s →
  (type a = Some "UNDO"%string ∨ type a = Some "CREATE_UNDO_LEVEL"%string ∨
   (includes (resetTypes options) (type a) = true ∧ type a ≠ Some "REDO"%string) →
     returns (enhanced (Some p) a) σ committed) ∧
  (type a = Some "REDO"%string → Merged.future s ≠ [] →
     returns (enhanced (Some p) a) σ committed).
Proof.
  intros Hp.
  assert (type a = Some "UNDO"%string → returns (enhanced (Some p) a) σ committed) as Hundo.
  { intros Ha. unfold returns. rewrite (undo_cases _ _ _ _ _ _ _ Hp Ha).
    case_decide as Hc; [case_decide as Hlen|].
    - by exists p, σ, s.
    - eexists _, _, _. split; [reflexivity|]. split; [apply alloc_lookup|].
      unfold committed. simpl.
      destruct (Merged.past s) as [|y l _] using rev_ind; [done|].
      rewrite slice_init.
      destruct l as [|x l _] using rev_ind.
      { rewrite len_app in Hlen. change (len []) with 0 in Hlen.
        change (len [y]) with 1 in Hlen. lia. }
      rewrite index_snoc. rewrite <- (assoc_L (++)). simpl.
      by rewrite index_before_last.
    - eexists _, _, _. split; [reflexivity|]. split; [apply alloc_lookup|].
      done. }
  assert (type a = Some "CREATE_UNDO_LEVEL"%string →
          returns (enhanced (Some p) a) σ committed) as Hcheck.
  { intros Ha. unfold returns. rewrite (checkpoint_cases _ _ _ _ _ _ _ Hp Ha).
    case_decide as Hc.
    - by exists p, σ, s.
    - eexists _, _, _. split; [reflexivity|]. split; [apply alloc_lookup|].
      unfold committed. simpl. apply index_snoc. }
  split.
  - intros [Ha|[Ha|[Hreset Hredo]]]; [by apply Hundo|by apply Hcheck|].
    destruct (decide (type a = Some "UNDO"%string)) as [|Hu]; [by apply Hundo|].
    destruct (decide (type a = Some "CREATE_UNDO_LEVEL"%string)) as [|Hk];
      [by apply Hcheck|].
    assert (¬ control (type a)) as Hctl by (unfold control; tauto).
    unfold returns. rewrite (edit_cases _ _ _ _ _ _ _ Hp Hctl).
    destruct (reducer _ _ _) as [nextPresent w]. rewrite Hreset.
    eexists _, _, _. split; [reflexivity|].
    split; [apply (alloc_lookup (Store w (objects σ)))|]. done.
  - intros Ha Hf. unfold returns. rewrite (redo_cases _ _ _ _ _ _ _ Hp Ha).
    destruct (Merged.future s) as [|next rest]; [done|].
    eexists _, _, _. split; [reflexivity|]. split; [apply alloc_lookup|].
    unfold committed. simpl. apply index_snoc.
Qed.

(** C1, amended. From a state without provisional edit, [UNDO] then
    [REDO]: when past has at least two records the result is a newly
    allocated record, not the input object, with the past, present and
    future of the state before the pair; when past has fewer than two
    records and future is empty, both dispatches return their input and
    the result is the input object. *)
Theorem undo_redo_roundtrip σ p s undo redo :
  objects σ !! p = Some s →
  type undo = Some "UNDO"%string →
  type redo = Some "REDO"%string →
  committed s →
  (2 ≤ len (Merged.past s) →
     ∃ p' σ', undo_redo reducer options initialState p undo redo σ = Some (p', σ') ∧
              p' ≠ p ∧ objects σ' !! p' = Some s) ∧
  (len (Merged.past s) < 2 → Merged.future s = [] →
     undo_redo reducer options initialState p undo redo σ = Some (p, σ)).
Proof.
  intros Hp Hu Hr Hc. unfold undo_redo. split.
  - intros Hlen.
    erewrite bind_Some; last first.
    { rewrite (undo_cases _ _ _ _ _ _ _ Hp Hu).
      rewrite decide_True, decide_False by (done || lia). reflexivity. }
    rewrite (redo_cases _ _ _ _ _ _ _ (alloc_lookup σ _) Hr). simpl.
    eexists _, _. split; [reflexivity|]. simpl. split.
    { apply lookup_lt_Some in Hp. rewrite length_app. simpl. lia. }
    rewrite lookup_app_r by (rewrite length_app; simpl; lia).
    rewrite length_app, Nat.sub_diag. simpl. f_equal.
    destruct s as [past present future]. unfold committed in Hc. simpl in *.
    destruct past as [|y l _] using rev_ind.
    { change (len []) with 0 in Hlen. lia. }
    rewrite slice_init. rewrite index_snoc in Hc. by subst.
  - intros Hlen Hf.
    erewrite bind_Some; last first.
    { rewrite (undo_cases _ _ _ _ _ _ _ Hp Hu).
      by rewrite decide_True, decide_True. }
    rewrite (redo_cases _ _ _ _ _ _ _ Hp Hr). by rewrite Hf.
Qed.

End MergedAmended.

(** ** Reachable states of the merged-present enhancer *)

Section MergedInvariant.
Context {W : Type} (reducer : Reducer W) (options : Options).
Implicit Types (σ : store W Merged.HistoryState) (s : Merged.HistoryState).
Implicit Types (p : addr) (a : action).

Lemma slice_init_len (l : list value) :
  2 ≤ len l → 1 ≤ len (slice l 0 (len l - 1)).
Proof.
  destruct l as [|y l _] using rev_ind; [by change (len []) with 0; lia|].
  rewrite slice_init, len_app. change (len [y]) with 1. lia.
Qed.

(** One dispatch: it returns, and a non-empty past stays non-empty. *)
Lemma dispatch_nonempty initialState σ p s a :
  objects σ !! p = Some s → 1 ≤ len (Merged.past s) →
  returns (Merged.enhanced reducer options initialState (Some p) a) σ
    (λ s', 1 ≤ len (Merged.past s')).
Proof.
  intros Hp Hlen. unfold returns.
  destruct (decide (type a = Some "UNDO"%string)) as [Hu|Hu].
  { rewrite (undo_cases _ _ _ _ _ _ _ Hp Hu).
    case_decide; [case_decide|].
    - by exists p, σ, s.
    - eexists _, _, _. split; [reflexivity|]. split; [apply alloc_lookup|].
      simpl. apply slice_init_len. lia.
    - eexists _, _, _. split; [reflexivity|]. split; [apply alloc_lookup|].
      done. }
  destruct (decide (type a = Some "REDO"%string)) as [Hr|Hr].
  { rewrite (redo_cases _ _ _ _ _ _ _ Hp Hr).
    destruct (Merged.future s) as [|next rest]; [by exists p, σ, s|].
    eexists _, _, _. split; [reflexivity|]. split; [apply alloc_lookup|].
    simpl. rewrite len_app. change (len [next]) with 1. lia. }
  destruct (decide (type a = Some "CREATE_UNDO_LEVEL"%string)) as [Hk|Hk].
  { rewrite (checkpoint_cases _ _ _ _ _ _ _ Hp Hk).
    case_decide; [by exists p, σ, s|].
    eexists _, _, _. split; [reflexivity|]. split; [apply alloc_lookup|].
    simpl. rewrite len_app. change (len [Merged.present s]) with 1. lia. }
  assert (¬ control (type a)) as Hctl by (unfold control; tauto).
  rewrite (edit_cases _ _ _ _ _ _ _ Hp Hctl).
  destruct (reducer _ _ _) as [nextPresent w].
  destruct (includes _ _); [|case_decide].
  - eexists _, _, _. split; [reflexivity|].
    split; [apply (alloc_lookup (Store w (objects σ)))|]. done.
  - by exists p, (Store w (objects σ)), s.
  - eexists _, _, _. split; [reflexivity|].
    split; [apply (alloc_lookup (Store w (objects σ)))|]. done.
Qed.

Lemma dispatchAll_nonempty initialState actions : ∀ σ p s,
  objects σ !! p = Some s → 1 ≤ len (Merged.past s) →
  ∃ p' σ' s',
    dispatchAll (Merged.enhanced reducer options initialState) (Some p) actions σ
      = Some (Some p', σ') ∧
    objects σ' !! p' = Some s' ∧ 1 ≤ len (Merged.past s').
Proof.
  induction actions as [|a rest IH]; intros σ p s Hp Hlen.
  - by exists p, σ, s.
  - destruct (dispatch_nonempty initialState σ p s a Hp Hlen)
      as (p1 & σ1 & s1 & Hstep & Hp1 & Hlen1).
    simpl. rewrite (bind_Some _ _ _ _ _ Hstep). by eapply IH.
Qed.

(** The initial state: a record whose past is the one-element array of
    its present. *)
Lemma withHistory_initial σ0 :
  ∃ initialState σ1,
    Merged.withHistory reducer options σ0
      = Some (Merged.enhanced reducer options initialState, σ1) ∧
    objects σ1 !! initialState
      = Some {| Merged.past := [(reducer undefined empty_action (world σ0)).1];
                Merged.present := (reducer undefined empty_action (world σ0)).1;
                Merged.future := [] |}.
Proof.
  unfold Merged.withHistory, mbind, M_bind, call, mret, M_ret. simpl.
  destruct (reducer undefined empty_action (world σ0)) as [initialPresent w].
  simpl. eexists _, _. split; [reflexivity|].
  apply (alloc_lookup (Store w (objects σ0))).
Qed.

(** C9. The initial state has one record in its past, and whatever the
    actions, the dispatch loop started on the enhanced reducer with no state
    returns, and the state it ends in (so every state it goes through) has
    at least one record in its past. *)
Theorem past_nonempty σ0 :
  ∃ initialState σ1 s0,
    Merged.withHistory reducer options σ0
      = Some (Merged.enhanced reducer options initialState, σ1) ∧
    objects σ1 !! initialState = Some s0 ∧
    len (Merged.past s0) = 1 ∧
    ∀ a actions, ∃ p σ s,
      (r ← Merged.withHistory reducer options; dispatchAll r None (a :: actions)) σ0
        = Some (Some p, σ) ∧
      objects σ !! p = Some s ∧
      1 ≤ len (Merged.past s).
Proof.
  destruct (withHistory_initial σ0) as (initialState & σ1 & Hinit & Hp).
  eexists initialState, σ1, _.
  split; [exact Hinit|]. split; [exact Hp|]. split; [done|].
  intros a actions. rewrite (bind_Some _ _ _ _ _ Hinit).
  change (dispatchAll ?r None (a :: actions))
    with (dispatchAll r (Some initialState) (a :: actions)).
  eapply dispatchAll_nonempty; [exact Hp|]. done.
Qed.

End MergedInvariant.

(** ** The two revisions side by side *)

(** Both revisions allocated a record, or both returned their input. *)
Ltac in_step_fresh :=
  eexists _, _, _, _, _, _;
  split; [reflexivity|]; split; [reflexivity|];
  split; [apply alloc_lookup|]; split; [apply alloc_lookup|];
  split; [done|]; split; [by repeat split|]; simpl; tauto.
Ltac in_step_same :=
  eexists _, _, _, _, _, _;
  split; [reflexivity|]; split; [reflexivity|];
  split; [eassumption|]; split; [eassumption|];
  split; [done|]; split; [by repeat split|]; tauto.

Section Correspondence.
Context {W : Type} (reducer : Reducer W) (options : Options).
Variables initB initM : addr.
Implicit Types (σb : store W Buffered.HistoryState) (σm : store W Merged.HistoryState).
Implicit Types (b : Buffered.HistoryState) (m : Merged.HistoryState).

Lemma fresh_iff σb σm pb pm b m :
  objects σb !! pb = Some b → objects σm !! pm = Some m →
  length (objects σb) = pb ↔ length (objects σm) = pm.
Proof.
  intros Hb%lookup_lt_Some Hm%lookup_lt_Some. split; intros; exfalso; lia.
Qed.

(** X22. From records that correspond, every dispatch keeps the two
    revisions in step, but for [UNDO] of a provisional edit when the
    buffered past is not empty. *)
Lemma correspondence_step σb pb b σm pm m a :
  objects σb !! pb = Some b → objects σm !! pm = Some m →
  world σb = world σm → corresponds b m →
  ¬ (type a = Some "UNDO"%string ∧ Buffered.present b ≠ Buffered.buffer b ∧
     Buffered.past b ≠ []) →
  in_step reducer options initB initM σb pb σm pm a.
Proof.
  intros Hb Hm Hw (Hpast & Hpres & Hfut) Hnot. unfold in_step.
  pose proof (fresh_iff σb σm pb pm b m Hb Hm) as Hfresh.
  unfold Buffered.enhanced, Merged.enhanced. simpl default.
  rewrite (bind_Some _ _ _ _ _ (deref_Some _ _ _ Hb)).
  rewrite (bind_Some _ _ _ _ _ (deref_Some _ _ _ Hm)).
  destruct b as [past present buffer future], m as [past' present' future'].
  simpl in *. subst past' present' future'.
  rewrite index_snoc.
  assert (len (past ++ [present]) < 2 ↔ len past = 0) as Hlen.
  { rewrite len_app. change (len [present]) with 1.
    pose proof (len_nonneg past). lia. }
  destruct (decide (type a = Some "UNDO"%string)) as [Hu|Hu].
  { destruct (decide (present ≠ buffer)) as [Hne|Heq].
    - assert (past = []) as -> by (destruct past; [done|exfalso; by apply Hnot]).
      in_step_fresh.
    - apply dec_stable in Heq. subst buffer.
      destruct (decide (len past = 0)) as [H0|H0].
      + rewrite decide_True by tauto. in_step_same.
      + rewrite decide_False by tauto.
        destruct past as [|x l _] using rev_ind; [done|].
        rewrite slice_init, index_snoc.
        rewrite slice_init, <- (assoc_L (++)). simpl. rewrite index_before_last.
        in_step_fresh. }
  destruct (decide (type a = Some "REDO"%string)) as [Hr|Hr].
  { destruct (decide (len future = 0)); [in_step_same|].
    in_step_fresh. }
  destruct (decide (type a = Some "CREATE_UNDO_LEVEL"%string)) as [Hk|Hk].
  { destruct (decide (present = buffer)) as [Heq|Hne]; [in_step_same|].
    in_step_fresh. }
  unfold mbind, M_bind, call. rewrite Hw.
  destruct (reducer buffer a (world σm)) as [nextBuffer w]. simpl.
  destruct (includes _ _); [|destruct (decide (buffer = nextBuffer))].
  - in_step_fresh.
  - in_step_same.
  - in_step_fresh.
Qed.

End Correspondence.

Section CorrespondenceLimits.
Context {W : Type} (reducer : Reducer W) (options : Options).
Variables initB initM : addr.

(** X23. The case left out above never keeps them in step: the buffered
    revision drops the last record of its past, the merged-present
    revision keeps its past. *)
Lemma correspondence_broken
    (σb : store W Buffered.HistoryState) pb b
    (σm : store W Merged.HistoryState) pm m a :
  objects σb !! pb = Some b → objects σm !! pm = Some m →
  corresponds b m →
  type a = Some "UNDO"%string →
  Buffered.present b ≠ Buffered.buffer b → Buffered.past b ≠ [] →
  ¬ in_step reducer options initB initM σb pb σm pm a.
Proof.
  intros Hb Hm (Hpast & Hpres & Hfut) Ha Hne Hnil.
  intros (pb' & σb' & b' & pm' & σm' & m' & Hsb & Hsm & Hb' & Hm' & _ & Hc & _).
  revert Hsb Hsm. unfold Buffered.enhanced. simpl default.
  rewrite (bind_Some _ _ _ _ _ (deref_Some _ _ _ Hb)).
  rewrite (undo_cases _ _ _ _ _ _ _ Hm Ha).
  destruct (decide (committed m)) as [Hcm|_].
  { unfold committed in Hcm. rewrite Hpast, index_snoc, Hpres in Hcm. done. }
  destruct b as [past present buffer future], m as [past' present' future'].
  simpl in *. subst past' present' future'.
  rewrite Ha, decide_True, decide_True by done.
  unfold alloc. intros [= <- <-] [= <- <-].
  rewrite alloc_lookup in Hb'. rewrite alloc_lookup in Hm'.
  injection Hb' as <-. injection Hm' as <-.
  destruct Hc as (Hc & _ & _). simpl in Hc.
  destruct past as [|x l _] using rev_ind; [done|].
  rewrite slice_init in Hc. apply (f_equal length) in Hc.
  rewrite !length_app in Hc. simpl in Hc. lia.
Qed.


End CorrespondenceLimits.

(** C2. The two revisions are not equivalent.  On the reducer of the
    test-suite, after an edit, a checkpoint, a second edit and [UNDO], the
    buffered revision has an empty past where the merged-present revision
    still has both checkpoints, so the records do not correspond; a second
    [UNDO] changes nothing in the buffered revision and goes back to the
    initial document in the merged-present one. *)
Theorem buffered_undo_drops_checkpoint :
  final_buffered no_options undo_of_second_edit
    = Some {| Buffered.past := []; Buffered.present := ref 2;
              Buffered.buffer := ref 2; Buffered.future := [ref 3] |} ∧
  final_merged no_options undo_of_second_edit
    = Some {| Merged.past := [ref 0; ref 1]; Merged.present := ref 1;
              Merged.future := [ref 2] |} ∧
  ¬ corresponds
      {| Buffered.past := []; Buffered.present := ref 2;
         Buffered.buffer := ref 2; Buffered.future := [ref 3] |}
      {| Merged.past := [ref 0; ref 1]; Merged.present := ref 1;
         Merged.future := [ref 2] |} ∧
  view_buffered no_options (undo_of_second_edit ++ [UNDO])
    = Some ([], Some 1, Some 1, [Some 2]) ∧
  view_merged no_options (undo_of_second_edit ++ [UNDO])
    = Some ([Some 0], Some 0, [Some 1; Some 2]).
Proof.
  split; [reflexivity|]. split; [reflexivity|].
  split; [|split; reflexivity].
  intros (Hpast & _). discriminate Hpast.
Qed.

(** ** The selectors *)

(** What the two history selectors compute: whether past, and whether
    future, has at least one record. *)
Theorem history_selectors (state : State) :
  (hasEditorUndo state = true ↔ len (Merged.past (editor state)) > 0) ∧
  (hasEditorRedo state = true ↔ len (Merged.future (editor state)) > 0).
Proof.
  unfold hasEditorUndo, hasEditorRedo. by rewrite !bool_decide_eq_true.
Qed.

(** On a freshly initialised editor, whose past holds the one initial
    record, [hasEditorUndo] answers true: it is not [past.length > 1]. *)
Lemma has_undo_on_fresh_state :
  ¬ (hasEditorUndo fresh_state = true ↔ len (Merged.past (editor fresh_state)) > 1).
Proof.
  intros [Hlen _]. specialize (Hlen eq_refl). vm_compute in Hlen. discriminate.
Qed.

(** C5. The code at the failing input.  [hasEditorUndo] tests
    [past.length > 0] where the merged-present enhancer keeps the present
    as the last record of past and has nothing to undo while
    [past.length < 2]: on the initial state of the enhancer, for every base
    reducer and all options, past holds exactly one record, [hasEditorUndo]
    answers true, and [UNDO] returns the state object it was given. *)
Theorem has_undo_with_nothing_to_undo {W} (reducer : Reducer W) (options : Options)
    (σ0 : store W Merged.HistoryState) (saving : bool) :
  ∃ initialState σ1 s0,
    Merged.withHistory reducer options σ0
      = Some (Merged.enhanced reducer options initialState, σ1) ∧
    objects σ1 !! initialState = Some s0 ∧
    len (Merged.past s0) = 1 ∧
    hasEditorUndo {| editor := s0; isSavingMetaBoxes := saving |} = true ∧
    Merged.enhanced reducer options initialState (Some initialState) UNDO σ1
      = Some (initialState, σ1).
Proof.
  destruct (withHistory_initial reducer options σ0) as (initialState & σ1 & Hinit & Hp).
  eexists initialState, σ1, _.
  split; [exact Hinit|]. split; [exact Hp|]. split; [done|]. split; [done|].
  rewrite (undo_cases reducer options initialState σ1 initialState _ UNDO Hp eq_refl).
  by rewrite decide_True, decide_True.
Qed.

(** ** The test-suite, replayed *)

Example test_merged_initial :
  view_merged no_options [empty_action] = Some ([Some 0], Some 0, []).
Proof. reflexivity. Qed.

Example test_merged_tracks_present :
  view_merged no_options [empty_action; INCREMENT] = Some ([Some 0], Some 1, []).
Proof. reflexivity. Qed.

Example test_merged_undo_level :
  view_merged no_options [empty_action; INCREMENT; CREATE_UNDO_LEVEL]
    = Some ([Some 0; Some 1], Some 1, []) ∧
  run_merged no_options [empty_action; INCREMENT; CREATE_UNDO_LEVEL; CREATE_UNDO_LEVEL]
    = run_merged no_options [empty_action; INCREMENT; CREATE_UNDO_LEVEL].
Proof. split; reflexivity. Qed.

Example test_merged_undo_of_buffer :
  view_merged no_options [empty_action; INCREMENT; UNDO]
    = Some ([Some 0], Some 0, [Some 1]) ∧
  run_merged no_options [empty_action; INCREMENT; UNDO; UNDO]
    = run_merged no_options [empty_action; INCREMENT; UNDO].
Proof. split; reflexivity. Qed.

Example test_merged_redo :
  view_merged no_options [empty_action; INCREMENT; CREATE_UNDO_LEVEL; UNDO; REDO]
    = Some ([Some 0; Some 1], Some 1, []) ∧
  run_merged no_options [empty_action; INCREMENT; CREATE_UNDO_LEVEL; UNDO; REDO; REDO]
    = run_merged no_options [empty_action; INCREMENT; CREATE_UNDO_LEVEL; UNDO; REDO].
Proof. split; reflexivity. Qed.

Example test_merged_reset :
  view_merged reset_options [empty_action; INCREMENT; CREATE_UNDO_LEVEL; RESET_HISTORY]
    = Some ([Some 1], Some 1, []).
Proof. reflexivity. Qed.

Example test_buffered_initial :
  view_buffered no_options [empty_action] = Some ([], Some 0, Some 0, []).
Proof. reflexivity. Qed.

Example test_buffered_undo_level :
  view_buffered no_options [empty_action; INCREMENT; CREATE_UNDO_LEVEL]
    = Some ([Some 0], Some 1, Some 1, []).
Proof. reflexivity. Qed.

Example test_buffered_undo_of_buffer :
  view_buffered no_options [empty_action; INCREMENT; UNDO]
    = Some ([], Some 0, Some 0, [Some 1]).
Proof. reflexivity. Qed.

Example test_buffered_redo :
  view_buffered no_options [empty_action; INCREMENT; CREATE_UNDO_LEVEL; UNDO; REDO]
    = Some ([Some 0], Some 1, Some 1, []).
Proof. reflexivity. Qed.

Example test_buffered_reset :
  view_buffered reset_options [empty_action; INCREMENT; CREATE_UNDO_LEVEL; RESET_HISTORY]
    = Some ([], Some 1, Some 1, []).
Proof. reflexivity. Qed.

(** The store of the scenario is the one the test-suite builds. *)
Example test_store_reached :
  run_merged no_options [empty_action; INCREMENT; CREATE_UNDO_LEVEL]
    = Some (Some 2%nat, test_store).
Proof. reflexivity. Qed.

Example undone_store_reached :
  run_merged no_options [empty_action; INCREMENT; UNDO]
    = Some (Some 2%nat, undone_store).
Proof. reflexivity. Qed.

(** ** Where the claims fail as stated *)

(** C1 fails as stated.  On the checkpointed state of the scenario, [UNDO]
    then [REDO] return the fifth record of the store, not the third that
    they were given.  And on a state with one record in past and one state
    to redo, [UNDO] changes nothing and [REDO] moves forward: the result
    does not even have the contents of the state before the pair. *)
Lemma undo_redo_not_identical :
  (objects test_store !! 2%nat
     = Some {| Merged.past := [ref 0; ref 1]; Merged.present := ref 1;
               Merged.future := [] |} ∧
   committed {| Merged.past := [ref 0; ref 1]; Merged.present := ref 1;
                Merged.future := [] |} ∧
   ¬ ∃ σ', undo_redo counter no_options 0%nat 2%nat UNDO REDO test_store
             = Some (2%nat, σ')) ∧
  (objects undone_store !! 2%nat
     = Some {| Merged.past := [ref 0]; Merged.present := ref 0;
               Merged.future := [ref 1] |} ∧
   committed {| Merged.past := [ref 0]; Merged.present := ref 0;
                Merged.future := [ref 1] |} ∧
   returns (undo_redo counter no_options 0%nat 2%nat UNDO REDO) undone_store
     (λ s', s' = {| Merged.past := [ref 0; ref 1]; Merged.present := ref 1;
                    Merged.future := [] |})).
Proof.
  split.
  - split; [reflexivity|]. split; [reflexivity|].
    intros [σ' H]. vm_compute in H. discriminate H.
  - split; [reflexivity|]. split; [reflexivity|].
    eexists _, _, _. split; [reflexivity|]. split; reflexivity.
Qed.

(** C3 fails as stated.  With [UNDO] listed as a reset type, dispatching
    [UNDO] on the checkpointed state of the scenario undoes: the result has
    a state to redo, and is not the single checkpoint of the next
    present. *)
Lemma reset_shadowed_by_undo :
  includes (resetTypes undo_resets) (type UNDO) = true ∧
  objects test_store !! 2%nat
    = Some {| Merged.past := [ref 0; ref 1]; Merged.present := ref 1;
              Merged.future := [] |} ∧
  returns (Merged.enhanced counter undo_resets 0%nat (Some 2%nat) UNDO) test_store
    (λ s', s' = {| Merged.past := [ref 0]; Merged.present := ref 0;
                   Merged.future := [ref 1] |}) ∧
  ¬ returns (Merged.enhanced counter undo_resets 0%nat (Some 2%nat) UNDO) test_store
      (λ s', s' = {| Merged.past := [(counter (ref 1) UNDO (world test_store)).1];
                     Merged.present := (counter (ref 1) UNDO (world test_store)).1;
                     Merged.future := [] |}).
Proof.
  split; [reflexivity|]. split; [reflexivity|]. split.
  - eexists _, _, _. split; [reflexivity|]. split; reflexivity.
  - intros (p' & σ' & s' & Hrun & Hp' & ->).
    vm_compute in Hrun. injection Hrun as <- <-.
    vm_compute in Hp'. discriminate Hp'.
Qed.

(** C10 fails as stated.  With [REDO] listed as a reset type, dispatching
    [REDO] on a state with a provisional edit and nothing to redo returns
    that state, provisional edit included. *)
Lemma redo_reset_keeps_marker :
  includes (resetTypes redo_resets) (type REDO) = true ∧
  objects test_store !! 1%nat
    = Some {| Merged.past := [ref 0]; Merged.present := ref 1;
              Merged.future := [] |} ∧
  Merged.enhanced counter redo_resets 0%nat (Some 1%nat) REDO test_store
    = Some (1%nat, test_store) ∧
  ¬ returns (Merged.enhanced counter redo_resets 0%nat (Some 1%nat) REDO) test_store
      committed.
Proof.
  split; [reflexivity|]. split; [reflexivity|]. split; [reflexivity|].
  intros (p' & σ' & s' & Hrun & Hp' & Hc).
  vm_compute in Hrun. injection Hrun as <- <-.
  vm_compute in Hp'. injection Hp' as <-.
  vm_compute in Hc. discriminate Hc.
Qed.

(** ** The laws on the records of the test-suite *)

Lemma undo_provisional_witness :
  index [ref 0] (len [ref 0] - 1) ≠ ref 1 ∧
  returns (Merged.enhanced counter no_options 0%nat (Some 1%nat) UNDO) test_store
    (λ s', Merged.present s' = ref 0 ∧
           Merged.future s' = [ref 1] ∧
           Merged.past s' = [ref 0]).
Proof.
  split; [discriminate|].
  apply (undo_provisional counter no_options 0%nat test_store 1%nat
           {| Merged.past := [ref 0]; Merged.present := ref 1; Merged.future := [] |}
           UNDO);
    [reflexivity|reflexivity|discriminate].
Defined.

Lemma boundary_noop_witness :
  Merged.enhanced counter no_options 0%nat (Some 0%nat) UNDO test_store
    = Some (0%nat, test_store) ∧
  Merged.enhanced counter no_options 0%nat (Some 0%nat) REDO test_store
    = Some (0%nat, test_store).
Proof.
  split.
  - apply (proj1 (boundary_noop counter no_options 0%nat test_store 0%nat
             {| Merged.past := [ref 0]; Merged.present := ref 0; Merged.future := [] |}
             UNDO eq_refl));
      reflexivity.
  - apply (proj2 (boundary_noop counter no_options 0%nat test_store 0%nat
             {| Merged.past := [ref 0]; Merged.present := ref 0; Merged.future := [] |}
             REDO eq_refl));
      reflexivity.
Defined.

Lemma checkpoint_idempotent_witness :
  (∃ p1 σ1,
     Merged.enhanced counter no_options 0%nat (Some 1%nat) CREATE_UNDO_LEVEL test_store
       = Some (p1, σ1) ∧
     Merged.enhanced counter no_options 0%nat (Some p1) CREATE_UNDO_LEVEL σ1
       = Some (p1, σ1)) ∧
  Merged.enhanced counter no_options 0%nat (Some 2%nat) CREATE_UNDO_LEVEL test_store
    = Some (2%nat, test_store).
Proof.
  split.
  - apply (proj1 (checkpoint_idempotent counter no_options 0%nat test_store 1%nat
             {| Merged.past := [ref 0]; Merged.present := ref 1; Merged.future := [] |}
             CREATE_UNDO_LEVEL CREATE_UNDO_LEVEL eq_refl eq_refl eq_refl)).
  - apply (proj2 (checkpoint_idempotent counter no_options 0%nat test_store 2%nat
             {| Merged.past := [ref 0; ref 1]; Merged.present := ref 1;
                Merged.future := [] |}
             CREATE_UNDO_LEVEL CREATE_UNDO_LEVEL eq_refl eq_refl eq_refl)).
    reflexivity.
Defined.

Lemma noop_edit_stability_witness :
  (counter (ref 1) empty_action (world test_store)).1 = ref 1 ∧
  Merged.enhanced counter reset_options 0%nat (Some 2%nat) empty_action test_store
    = Some (2%nat, test_store).
Proof.
  split; [reflexivity|].
  apply (noop_edit_stability counter reset_options 0%nat test_store 2%nat
           {| Merged.past := [ref 0; ref 1]; Merged.present := ref 1;
              Merged.future := [] |}
           empty_action);
    [reflexivity| |reflexivity|reflexivity].
  unfold control. simpl. intros [H|[H|H]]; discriminate H.
Defined.

Lemma reset_collapses_witness :
  returns (Merged.enhanced counter reset_options 0%nat (Some 2%nat) RESET_HISTORY)
    test_store
    (λ s', s' = {| Merged.past := [ref 1]; Merged.present := ref 1;
                   Merged.future := [] |} ∧
           len (Merged.past s') = 1 ∧ len (Merged.future s') = 0).
Proof.
  apply (reset_collapses counter reset_options 0%nat test_store 2%nat
           {| Merged.past := [ref 0; ref 1]; Merged.present := ref 1;
              Merged.future := [] |}
           RESET_HISTORY);
    [reflexivity|reflexivity|].
  unfold control. simpl. intros [H|[H|H]]; discriminate H.
Defined.

Lemma marker_cleared_witness :
  returns (Merged.enhanced counter reset_options 0%nat (Some 1%nat) UNDO) test_store
    committed ∧
  returns (Merged.enhanced counter reset_options 0%nat (Some 1%nat) RESET_HISTORY)
    test_store committed ∧
  returns (Merged.enhanced counter reset_options 0%nat (Some 2%nat) REDO) undone_store
    committed.
Proof.
  split; [|split].
  - apply (proj1 (marker_cleared counter reset_options 0%nat test_store 1%nat
             {| Merged.past := [ref 0]; Merged.present := ref 1; Merged.future := [] |}
             UNDO eq_refl)).
    left. reflexivity.
  - apply (proj1 (marker_cleared counter reset_options 0%nat test_store 1%nat
             {| Merged.past := [ref 0]; Merged.present := ref 1; Merged.future := [] |}
             RESET_HISTORY eq_refl)).
    right. right. split; [reflexivity|discriminate].
  - apply (proj2 (marker_cleared counter reset_options 0%nat undone_store 2%nat
             {| Merged.past := [ref 0]; Merged.present := ref 0;
                Merged.future := [ref 1] |}
             REDO eq_refl));
      [reflexivity|discriminate].
Defined.

Lemma undo_redo_roundtrip_witness :
  (∃ p' σ',
     undo_redo counter no_options 0%nat 2%nat UNDO REDO test_store = Some (p', σ') ∧
     p' ≠ 2%nat ∧
     objects σ' !! p' = Some {| Merged.past := [ref 0; ref 1]; Merged.present := ref 1;
                                Merged.future := [] |}) ∧
  undo_redo counter no_options 0%nat 0%nat UNDO REDO test_store
    = Some (0%nat, test_store).
Proof.
  split.
  - apply (proj1 (undo_redo_roundtrip counter no_options 0%nat test_store 2%nat
             {| Merged.past := [ref 0; ref 1]; Merged.present := ref 1;
                Merged.future := [] |}
             UNDO REDO eq_refl eq_refl eq_refl eq_refl)).
    discriminate.
  - apply (proj2 (undo_redo_roundtrip counter no_options 0%nat test_store 0%nat
             {| Merged.past := [ref 0]; Merged.present := ref 0; Merged.future := [] |}
             UNDO REDO eq_refl eq_refl eq_refl eq_refl));
      reflexivity.
Defined.

(** ** Further laws of the merged-present enhancer *)

Section MergedComposition.
Context {W : Type} (reducer : Reducer W) (options : Options).
Variable initialState : addr.
Implicit Types (σ : store W Merged.HistoryState) (s : Merged.HistoryState).
Implicit Types (p : addr) (a : action).

#[local] Abbreviation enhanced := (Merged.enhanced reducer options initialState).

(** X1. The three control actions never reach the base reducer: what they
    return depends neither on the reducer nor on the options, and the
    reducer's world is left as it was. *)
Theorem control_never_calls_reducer (reducer' : Reducer W) (options' : Options) σ p s a :
  objects σ !! p = Some s →
  control (type a) →
  enhanced (Some p) a σ = Merged.enhanced reducer' options' initialState (Some p) a σ ∧
  ∃ p' σ', enhanced (Some p) a σ = Some (p', σ') ∧ world σ' = world σ.
Proof.
  intros Hp [Ha|[Ha|Ha]].
  - rewrite !(undo_cases _ _ _ _ _ _ _ Hp Ha). split; [done|].
    repeat case_decide; by eexists _, _.
  - rewrite !(redo_cases _ _ _ _ _ _ _ Hp Ha). split; [done|].
    destruct (Merged.future s); by eexists _, _.
  - rewrite !(checkpoint_cases _ _ _ _ _ _ _ Hp Ha). split; [done|].
    case_decide; by eexists _, _.
Qed.

(** One step of navigation from a state without provisional edit. *)
Lemma navigation_step σ p s a :
  objects σ !! p = Some s → committed s → navigation a →
  returns (enhanced (Some p) a) σ (λ s',
    committed s' ∧
    Merged.past s' ++ Merged.future s' = Merged.past s ++ Merged.future s).
Proof.
  intros Hp Hc [Ha|Ha]; unfold returns.
  - rewrite (undo_cases _ _ _ _ _ _ _ Hp Ha). rewrite decide_True by done.
    case_decide as Hlen; [by exists p, σ, s|].
    eexists _, _, _. split; [reflexivity|]. split; [apply alloc_lookup|].
    destruct s as [past present future]. unfold committed in *. simpl in *.
    destruct past as [|y l _] using rev_ind; [by change (len []) with 0 in Hlen|].
    destruct l as [|x l _] using rev_ind.
    { rewrite len_app in Hlen. change (len []) with 0 in Hlen.
      change (len [y]) with 1 in Hlen. lia. }
    rewrite index_snoc in Hc. subst present.
    rewrite slice_init, index_snoc, <- !(assoc_L (++)). simpl.
    by rewrite index_before_last.
  - rewrite (redo_cases _ _ _ _ _ _ _ Hp Ha).
    destruct s as [past present future]. simpl.
    destruct future as [|next rest]; [by eexists p, σ, _|].
    eexists _, _, _. split; [reflexivity|]. split; [apply alloc_lookup|].
    unfold committed. simpl. split; [apply index_snoc|].
    by rewrite <- (assoc_L (++)).
Qed.

(** X2. Navigation loses nothing: from a state without provisional edit,
    any sequence of [UNDO] and [REDO] ends in a state without provisional
    edit in which past followed by future is the same sequence of
    documents as before. *)
Theorem navigation_preserves_timeline actions : ∀ σ p s,
  objects σ !! p = Some s →
  committed s →
  Forall navigation actions →
  ∃ p' σ' s',
    dispatchAll enhanced (Some p) actions σ = Some (Some p', σ') ∧
    objects σ' !! p' = Some s' ∧
    committed s' ∧
    Merged.past s' ++ Merged.future s' = Merged.past s ++ Merged.future s.
Proof.
  induction actions as [|a rest IH]; intros σ p s Hp Hc Hall.
  - by exists p, σ, s.
  - apply Forall_cons in Hall as [Ha Hrest].
    destruct (navigation_step σ p s a Hp Hc Ha) as (p1 & σ1 & s1 & Hstep & Hp1 & Hc1 & Ht1).
    simpl. rewrite (bind_Some _ _ _ _ _ Hstep).
    destruct (IH σ1 p1 s1 Hp1 Hc1 Hrest) as (p' & σ' & s' & Hrun & Hp' & Hc' & Ht').
    exists p', σ', s'. by rewrite Ht', Ht1.
Qed.

(** X3. Ordinary actions leave the history alone: over any sequence of
    actions that are neither control actions nor reset types, past and
    future stay what they were, and present and the reducer's world are
    what the bare reducer computes from the old present. *)
Theorem edits_keep_history actions : ∀ σ p s,
  objects σ !! p = Some s →
  Forall (ordinary options) actions →
  ∃ p' σ' s',
    dispatchAll enhanced (Some p) actions σ = Some (Some p', σ') ∧
    objects σ' !! p' = Some s' ∧
    Merged.past s' = Merged.past s ∧
    Merged.future s' = Merged.future s ∧
    (Merged.present s', world σ') = reduceAll reducer (Merged.present s) actions (world σ).
Proof.
  induction actions as [|a rest IH]; intros σ p s Hp Hall.
  - by exists p, σ, s.
  - apply Forall_cons in Hall as [[Hctl Hreset] Hrest].
    rewrite dispatchAll_cons, (edit_cases _ _ _ _ _ _ _ Hp Hctl), Hreset. simpl.
    destruct (reducer (Merged.present s) a (world σ)) as [nextPresent w] eqn:Hred.
    case_decide as Hsame.
    + destruct (IH (Store w (objects σ)) p s Hp Hrest)
        as (p' & σ' & s' & Hrun & Hp' & Hpast & Hfut & Hfold).
      exists p', σ', s'. simpl in *. rewrite Hsame in Hfold. done.
    + set (s1 := {| Merged.past := Merged.past s; Merged.present := nextPresent;
                    Merged.future := Merged.future s |}).
      destruct (IH _ _ s1 (alloc_lookup (Store w (objects σ)) s1) Hrest)
        as (p' & σ' & s' & Hrun & Hp' & Hpast & Hfut & Hfold).
      exists p', σ', s'. done.
Qed.

End MergedComposition.

Section MergedRoundTrips.
Context {W : Type} (reducer : Reducer W) (options : Options).
Variable initialState : addr.
Implicit Types (σ : store W Merged.HistoryState) (s : Merged.HistoryState).
Implicit Types (p : addr) (a : action).

#[local] Abbreviation enhanced := (Merged.enhanced reducer options initialState).

(** X4. Undo reverts a checkpointed edit: from a state without provisional
    edit whose past is not empty, an ordinary action that changes present,
    then [CREATE_UNDO_LEVEL], then [UNDO] give back the past and the
    present of the start; the edited document is the one state to redo,
    and whatever was to be redone before is gone. *)
Theorem undo_reverts_checkpointed_edit σ p s edit checkpoint undo :
  objects σ !! p = Some s →
  committed s →
  Merged.past s ≠ [] →
  ordinary options edit →
  (reducer (Merged.present s) edit (world σ)).1 ≠ Merged.present s →
  type checkpoint = Some "CREATE_UNDO_LEVEL"%string →
  type undo = Some "UNDO"%string →
  returns (dispatch3 reducer options initialState p edit checkpoint undo) σ (λ s',
    s' = {| Merged.past := Merged.past s;
            Merged.present := Merged.present s;
            Merged.future := [(reducer (Merged.present s) edit (world σ)).1] |}).
Proof.
  intros Hp Hc Hpast [Hctl Hreset] Hchange Hk Hu. unfold returns, dispatch3.
  destruct s as [past present future]. unfold committed in Hc. simpl in *.
  destruct past as [|x l _] using rev_ind; [done|].
  rewrite index_snoc in Hc. subst x.
  destruct (reducer present edit (world σ)) as [nextPresent w] eqn:Hred. simpl in *.
  erewrite bind_Some; last first.
  { rewrite (edit_cases _ _ _ _ _ _ _ Hp Hctl), Hreset. simpl. rewrite Hred.
    rewrite decide_False by done. reflexivity. }
  erewrite bind_Some; last first.
  { rewrite (checkpoint_cases _ _ _ _ _ _ _ (alloc_lookup (Store w (objects σ)) _) Hk).
    rewrite decide_False; [reflexivity|].
    unfold committed. simpl. rewrite index_snoc. done. }
  rewrite (undo_cases _ _ _ _ _ _ _ (alloc_lookup _ _) Hu).
  rewrite decide_True by (unfold committed; simpl; apply index_snoc).
  rewrite decide_False; last first.
  { simpl. rewrite !len_app. change (len [present]) with 1.
    change (len [nextPresent]) with 1. pose proof (len_nonneg l). lia. }
  eexists _, _, _. split; [reflexivity|]. split; [apply alloc_lookup|].
  simpl. rewrite slice_init, <- (assoc_L (++)). simpl.
  by rewrite index_before_last.
Qed.

(** X5. Whenever [UNDO] undoes something (an edit is pending, or past has
    at least two records), [UNDO] then [REDO] bring back the present and
    the future of the start; a pending edit comes back committed, as the
    new last record of past. *)
Theorem undo_redo_restores_present σ p s undo redo :
  objects σ !! p = Some s →
  type undo = Some "UNDO"%string →
  type redo = Some "REDO"%string →
  ¬ committed s ∨ 2 ≤ len (Merged.past s) →
  returns (undo_redo reducer options initialState p undo redo) σ (λ s',
    s' = {| Merged.past := if decide (committed s) then Merged.past s
                           else Merged.past s ++ [Merged.present s];
            Merged.present := Merged.present s;
            Merged.future := Merged.future s |}).
Proof.
  intros Hp Hu Hr Hsome. unfold returns, undo_redo.
  destruct s as [past present future].
  destruct (decide (committed _)) as [Hc|Hc].
  - destruct Hsome as [|Hlen]; [done|]. simpl in Hlen.
    erewrite bind_Some; last first.
    { rewrite (undo_cases _ _ _ _ _ _ _ Hp Hu).
      rewrite decide_True, decide_False by (done || simpl; lia). reflexivity. }
    rewrite (redo_cases _ _ _ _ _ _ _ (alloc_lookup σ _) Hr). simpl.
    eexists _, _, _. split; [reflexivity|].
    split; [apply (alloc_lookup (Store _ _))|].
    unfold committed in Hc. simpl in Hc.
    destruct past as [|y l _] using rev_ind; [by change (len []) with 0 in Hlen|].
    rewrite slice_init. rewrite index_snoc in Hc. by subst.
  - erewrite bind_Some; last first.
    { rewrite (undo_cases _ _ _ _ _ _ _ Hp Hu).
      rewrite decide_False by done. reflexivity. }
    rewrite (redo_cases _ _ _ _ _ _ _ (alloc_lookup σ _) Hr). simpl.
    eexists _, _, _. split; [reflexivity|].
    split; [apply (alloc_lookup (Store _ _))|]. done.
Qed.

(** X6. [REDO] then [UNDO], when there is something to redo and past is not
    empty: past and future are those of the start, and present is the last
    record of past, so that the pair changes nothing but to drop a pending
    edit. *)
Theorem redo_undo_roundtrip σ p s redo undo :
  objects σ !! p = Some s →
  type redo = Some "REDO"%string →
  type undo = Some "UNDO"%string →
  Merged.future s ≠ [] →
  Merged.past s ≠ [] →
  returns (p1 ← enhanced (Some p) redo; enhanced (Some p1) undo) σ (λ s',
    s' = {| Merged.past := Merged.past s;
            Merged.present := index (Merged.past s) (len (Merged.past s) - 1);
            Merged.future := Merged.future s |}).
Proof.
  intros Hp Hr Hu Hfut Hpast. unfold returns.
  destruct s as [past present future]. simpl in *.
  destruct future as [|next rest]; [done|].
  erewrite bind_Some; last first.
  { rewrite (redo_cases _ _ _ _ _ _ _ Hp Hr). reflexivity. }
  rewrite (undo_cases _ _ _ _ _ _ _ (alloc_lookup σ _) Hu).
  rewrite decide_True by (unfold committed; simpl; apply index_snoc).
  destruct past as [|x l _] using rev_ind; [done|].
  rewrite decide_False; last first.
  { simpl. rewrite !len_app. change (len [x]) with 1. change (len [next]) with 1.
    pose proof (len_nonneg l). lia. }
  eexists _, _, _. split; [reflexivity|].
  split; [apply (alloc_lookup (Store _ _))|].
  simpl. rewrite slice_init, index_snoc, <- (assoc_L (++)). simpl.
  by rewrite index_before_last.
Qed.

(** X7. [hasEditorRedo] tells exactly whether [REDO] does something: it
    answers false if and only if [REDO] returns the object it was given. *)
Theorem redo_predicted_by_selector σ p (state : State) redo :
  objects σ !! p = Some (editor state) →
  type redo = Some "REDO"%string →
  hasEditorRedo state = false ↔ enhanced (Some p) redo σ = Some (p, σ).
Proof.
  intros Hp Hr. rewrite (redo_cases _ _ _ _ _ _ _ Hp Hr).
  unfold hasEditorRedo. rewrite bool_decide_eq_false.
  destruct (Merged.future (editor state)) as [|next rest] eqn:Hf.
  - change (len []) with 0. split; [done|lia].
  - split.
    + intros Hlen. exfalso. apply Hlen. unfold len. simpl. lia.
    + intros Halloc. exfalso.
      unfold alloc in Halloc. injection Halloc as Hlen _.
      apply lookup_lt_Some in Hp. lia.
Qed.

End MergedRoundTrips.

(** X8. With the merged-present enhancer behind [state.editor],
    [hasEditorUndo] answers true in every state the dispatch loop reaches. *)
Theorem has_undo_when_reachable {W} (reducer : Reducer W) (options : Options)
    (σ0 : store W Merged.HistoryState) (a : action) (actions : list action) (saving : bool) :
  ∃ p σ s,
    (r ← Merged.withHistory reducer options; dispatchAll r None (a :: actions)) σ0
      = Some (Some p, σ) ∧
    objects σ !! p = Some s ∧
    hasEditorUndo {| editor := s; isSavingMetaBoxes := saving |} = true.
Proof.
  destruct (withHistory_initial reducer options σ0) as (initialState & σ1 & Hinit & Hp).
  rewrite (bind_Some _ _ _ _ _ Hinit).
  change (dispatchAll ?r None (a :: actions))
    with (dispatchAll r (Some initialState) (a :: actions)).
  edestruct (dispatchAll_nonempty reducer options initialState (a :: actions))
    as (p & σ & s & Hrun & Hs & Hlen); [exact Hp|done|].
  exists p, σ, s. split; [done|]. split; [done|].
  unfold hasEditorUndo. apply bool_decide_eq_true. simpl. lia.
Qed.

(** ** The buffered enhancer, one dispatch at a time *)

Ltac enterB H :=
  unfold Buffered.enhanced; simpl default;
  rewrite (bind_Some _ _ _ _ _ (deref_Some _ _ _ H)).

Section BufferedSteps.
Context {W : Type} (reducer : Reducer W) (options : Options).
Variable initialState : addr.
Implicit Types (σ : store W Buffered.HistoryState) (s : Buffered.HistoryState).
Implicit Types (p : addr) (a : action).

#[local] Abbreviation enhanced := (Buffered.enhanced reducer options initialState).

Lemma buffered_undo_cases σ p s a :
  objects σ !! p = Some s → type a = Some "UNDO"%string →
  enhanced (Some p) a σ =
    if decide (Buffered.present s = Buffered.buffer s) then
      if decide (Buffered.past s = []) then Some (p, σ)
      else alloc {| Buffered.past := slice (Buffered.past s) 0 (len (Buffered.past s) - 1);
                    Buffered.present := index (Buffered.past s) (len (Buffered.past s) - 1);
                    Buffered.buffer := index (Buffered.past s) (len (Buffered.past s) - 1);
                    Buffered.future := Buffered.present s :: Buffered.future s |} σ
    else alloc {| Buffered.past := slice (Buffered.past s) 0 (len (Buffered.past s) - 1);
                  Buffered.present := Buffered.present s;
                  Buffered.buffer := Buffered.present s;
                  Buffered.future := Buffered.buffer s :: Buffered.future s |} σ.
Proof.
  intros Hp Ha. enterB Hp. destruct s as [past present buffer future].
  simpl. rewrite Ha.
  pose proof (len_zero past).
  repeat case_decide; done || tauto.
Qed.

Lemma buffered_redo_cases σ p s a :
  objects σ !! p = Some s → type a = Some "REDO"%string →
  enhanced (Some p) a σ =
    match Buffered.future s with
    | [] => Some (p, σ)
    | next :: rest => alloc {| Buffered.past := Buffered.past s ++ [Buffered.present s];
                               Buffered.present := next;
                               Buffered.buffer := next;
                               Buffered.future := rest |} σ
    end.
Proof.
  intros Hp Ha. enterB Hp. destruct s as [past present buffer future].
  simpl. rewrite Ha.
  case_decide; [done|]. case_decide; [|done].
  destruct future as [|next rest].
  - by case_decide.
  - case_decide as Hlen; [by apply len_zero in Hlen|].
    by rewrite slice_tail, index_head.
Qed.

Lemma buffered_checkpoint_cases σ p s a :
  objects σ !! p = Some s → type a = Some "CREATE_UNDO_LEVEL"%string →
  enhanced (Some p) a σ =
    if decide (Buffered.present s = Buffered.buffer s) then Some (p, σ)
    else alloc {| Buffered.past := Buffered.past s ++ [Buffered.present s];
                  Buffered.present := Buffered.buffer s;
                  Buffered.buffer := Buffered.buffer s;
                  Buffered.future := [] |} σ.
Proof.
  intros Hp Ha. enterB Hp. destruct s as [past present buffer future].
  simpl. rewrite Ha.
  repeat case_decide; done.
Qed.

Lemma buffered_edit_cases σ p s a :
  objects σ !! p = Some s → ¬ control (type a) →
  enhanced (Some p) a σ =
    let '(nextBuffer, w) := reducer (Buffered.buffer s) a (world σ) in
    if includes (resetTypes options) (type a) then
      alloc {| Buffered.past := [];
               Buffered.present := nextBuffer;
               Buffered.buffer := nextBuffer;
               Buffered.future := [] |} (Store w (objects σ))
    else if decide (Buffered.buffer s = nextBuffer) then
      Some (p, Store w (objects σ))
    else
      alloc {| Buffered.past := Buffered.past s;
               Buffered.present := Buffered.present s;
               Buffered.buffer := nextBuffer;
               Buffered.future := Buffered.future s |} (Store w (objects σ)).
Proof.
  intros Hp Ha. enterB Hp. destruct s as [past present buffer future].
  unfold control in Ha. simpl.
  repeat (case_decide; [tauto|]).
  unfold mbind, M_bind, call. simpl.
  destruct (reducer buffer a (world σ)) as [nextBuffer w].
  destruct (includes _ _); [done|]. by case_decide.
Qed.

End BufferedSteps.

Section BufferedLaws.
Context {W : Type} (reducer : Reducer W) (options : Options).
Variable initialState : addr.
Implicit Types (σ : store W Buffered.HistoryState) (s : Buffered.HistoryState).
Implicit Types (p : addr) (a : action).

#[local] Abbreviation enhanced := (Buffered.enhanced reducer options initialState).

(** X9. The buffered revision at its boundaries returns the object it was
    given: [UNDO] with no pending buffer and an empty past, [REDO] with an
    empty future, [CREATE_UNDO_LEVEL] with no pending buffer. *)
Theorem buffered_boundary_noop σ p s a :
  objects σ !! p = Some s →
  (type a = Some "UNDO"%string → Buffered.present s = Buffered.buffer s →
     Buffered.past s = [] → enhanced (Some p) a σ = Some (p, σ)) ∧
  (type a = Some "REDO"%string → Buffered.future s = [] →
     enhanced (Some p) a σ = Some (p, σ)) ∧
  (type a = Some "CREATE_UNDO_LEVEL"%string → Buffered.present s = Buffered.buffer s →
     enhanced (Some p) a σ = Some (p, σ)).
Proof.
  intros Hp. split; [|split].
  - intros Ha Hsame Hpast. rewrite (buffered_undo_cases _ _ _ _ _ _ _ Hp Ha).
    by rewrite decide_True, decide_True.
  - intros Ha Hf. rewrite (buffered_redo_cases _ _ _ _ _ _ _ Hp Ha). by rewrite Hf.
  - intros Ha Hsame. rewrite (buffered_checkpoint_cases _ _ _ _ _ _ _ Hp Ha).
    by rewrite decide_True.
Qed.

(** X10. In the buffered revision [UNDO], [CREATE_UNDO_LEVEL] and every
    reset action that is no control action return a state whose present is
    its buffer; so does [REDO] whenever future is not empty. *)
Theorem buffered_present_is_buffer σ p s a :
  objects σ !! p = Some s →
  (type a = Some "UNDO"%string ∨ type a = Some "CREATE_UNDO_LEVEL"%string ∨
   (includes (resetTypes options) (type a) = true ∧ ¬ control (type a)) →
     returns (enhanced (Some p) a) σ (λ s', Buffered.present s' = Buffered.buffer s')) ∧
  (type a = Some "REDO"%string → Buffered.future s ≠ [] →
     returns (enhanced (Some p) a) σ (λ s', Buffered.present s' = Buffered.buffer s')).
Proof.
  intros Hp. unfold returns. split.
  - intros [Ha|[Ha|[Hreset Hctl]]].
    + rewrite (buffered_undo_cases _ _ _ _ _ _ _ Hp Ha).
      repeat case_decide;
        (by exists p, σ, s) ||
        (eexists _, _, _; split; [reflexivity|]; split; [apply alloc_lookup|done]).
    + rewrite (buffered_checkpoint_cases _ _ _ _ _ _ _ Hp Ha).
      case_decide; [by exists p, σ, s|].
      eexists _, _, _. split; [reflexivity|]. split; [apply alloc_lookup|done].
    + rewrite (buffered_edit_cases _ _ _ _ _ _ _ Hp Hctl).
      destruct (reducer _ _ _) as [nextBuffer w]. rewrite Hreset.
      eexists _, _, _. split; [reflexivity|].
      split; [apply (alloc_lookup (Store w (objects σ)))|done].
  - intros Ha Hf. rewrite (buffered_redo_cases _ _ _ _ _ _ _ Hp Ha).
    destruct (Buffered.future s) as [|next rest]; [done|].
    eexists _, _, _. split; [reflexivity|]. split; [apply alloc_lookup|done].
Qed.

(** X11. In the buffered revision ordinary actions only move the buffer:
    over any sequence of actions that are neither control actions nor
    reset types, past, present and future stay what they were, and the
    buffer and the reducer's world are what the bare reducer computes from
    the old buffer. *)
Theorem buffered_edits_keep_history actions : ∀ σ p s,
  objects σ !! p = Some s →
  Forall (ordinary options) actions →
  ∃ p' σ' s',
    dispatchAll enhanced (Some p) actions σ = Some (Some p', σ') ∧
    objects σ' !! p' = Some s' ∧
    Buffered.past s' = Buffered.past s ∧
    Buffered.present s' = Buffered.present s ∧
    Buffered.future s' = Buffered.future s ∧
    (Buffered.buffer s', world σ') = reduceAll reducer (Buffered.buffer s) actions (world σ).
Proof.
  induction actions as [|a rest IH]; intros σ p s Hp Hall.
  - by exists p, σ, s.
  - apply Forall_cons in Hall as [[Hctl Hreset] Hrest].
    rewrite dispatchAll_cons, (buffered_edit_cases _ _ _ _ _ _ _ Hp Hctl), Hreset. simpl.
    destruct (reducer (Buffered.buffer s) a (world σ)) as [nextBuffer w] eqn:Hred.
    case_decide as Hsame.
    + destruct (IH (Store w (objects σ)) p s Hp Hrest)
        as (p' & σ' & s' & Hrun & Hp' & Hpast & Hpres & Hfut & Hfold).
      exists p', σ', s'. simpl in *. rewrite Hsame in Hfold. done.
    + set (s1 := {| Buffered.past := Buffered.past s;
                    Buffered.present := Buffered.present s;
                    Buffered.buffer := nextBuffer;
                    Buffered.future := Buffered.future s |}).
      destruct (IH _ _ s1 (alloc_lookup (Store w (objects σ)) s1) Hrest)
        as (p' & σ' & s' & Hrun & Hp' & Hpast & Hpres & Hfut & Hfold).
      exists p', σ', s'. done.
Qed.

(** X12. In the buffered revision, with no pending buffer and a past that
    is not empty, [UNDO] then [REDO] return a new record with the contents
    of the state before the pair. *)
Theorem buffered_undo_redo_roundtrip σ p s undo redo :
  objects σ !! p = Some s →
  type undo = Some "UNDO"%string →
  type redo = Some "REDO"%string →
  Buffered.present s = Buffered.buffer s →
  Buffered.past s ≠ [] →
  ∃ p' σ',
    buffered_undo_redo reducer options initialState p undo redo σ = Some (p', σ') ∧
    p' ≠ p ∧ objects σ' !! p' = Some s.
Proof.
  intros Hp Hu Hr Hsame Hpast. unfold buffered_undo_redo.
  erewrite bind_Some; last first.
  { rewrite (buffered_undo_cases _ _ _ _ _ _ _ Hp Hu).
    rewrite decide_True, decide_False by done. reflexivity. }
  rewrite (buffered_redo_cases _ _ _ _ _ _ _ (alloc_lookup σ _) Hr). simpl.
  eexists _, _. split; [reflexivity|]. simpl. split.
  { apply lookup_lt_Some in Hp. rewrite length_app. simpl. lia. }
  rewrite lookup_app_r by (rewrite length_app; simpl; lia).
  rewrite length_app, Nat.sub_diag. simpl. f_equal.
  destruct s as [past present buffer future]. simpl in *. subst buffer.
  destruct past as [|x l _] using rev_ind; [done|].
  by rewrite slice_init, index_snoc.
Qed.

End BufferedLaws.

(** ** The block selectors *)

Lemma indexOf_null (a : list string) : indexOf a None = -1.
Proof.
  unfold indexOf. destruct (list_find _ a) as [[i y]|] eqn:Hfind; [|done].
  apply list_find_Some in Hfind as (_ & Hy & _). done.
Qed.

(** [indexOf] is -1 on a value that is not in the array, and otherwise the
    position of its first occurrence. *)
Lemma indexOf_spec (a : list string) (x : option string) :
  (indexOf a x = -1 ∧ ∀ y, x = Some y → y ∉ a) ∨
  (∃ (i : nat) y, indexOf a x = Z.of_nat i ∧ x = Some y ∧ a !! i = Some y ∧
                  ∀ j, (j < i)%nat → a !! j ≠ Some y).
Proof.
  unfold indexOf. destruct (list_find _ a) as [[i y]|] eqn:Hfind.
  - right. apply list_find_Some in Hfind as (Hi & Hy & Hfirst).
    exists i, y. repeat split; [done|done|].
    intros j Hj Hlook. by apply (Hfirst j y Hlook Hj).
  - left. split; [done|]. intros y -> Hin.
    apply list_find_None in Hfind. rewrite Forall_forall in Hfind.
    by apply (Hfind y Hin).
Qed.

Lemma indexOf_bounds (a : list string) (x : option string) :
  -1 ≤ indexOf a x < len a.
Proof.
  destruct (indexOf_spec a x) as [[-> _]|(i & y & -> & _ & Hi & _)].
  - pose proof (len_nonneg a). lia.
  - apply lookup_lt_Some in Hi. unfold len. lia.
Qed.

Lemma indexOf_elem (a : list string) (y : string) :
  indexOf a (Some y) ≠ -1 ↔ y ∈ a.
Proof.
  destruct (indexOf_spec a (Some y)) as [[-> Hnot]|(i & y' & -> & [= <-] & Hi & _)].
  - split; [done|]. intros Hin. by destruct (Hnot y eq_refl).
  - split; [|lia]. intros _. by eapply list_elem_of_lookup_2.
Qed.

Lemma indexOf_lookup (a : list string) (x : option string) :
  0 ≤ indexOf a x → Some <$> a !! Z.to_nat (indexOf a x) = Some x.
Proof.
  destruct (indexOf_spec a x) as [[-> _]|(i & y & -> & -> & Hi & _)]; [lia|].
  intros _. by rewrite Nat2Z.id, Hi.
Qed.

(** [slice] between two positions of the array. *)
Lemma slice_between {A} (l : list A) (i j : nat) :
  (i ≤ j)%nat → (j ≤ length l)%nat →
  slice l (Z.of_nat i) (Z.of_nat j) = take (j - i) (drop i l).
Proof.
  intros Hij Hj. unfold slice, relative, len.
  repeat case_decide; try lia.
  rewrite !Z.min_l by lia. rewrite Nat2Z.id. f_equal. lia.
Qed.

Section BlockOrder.
Implicit Types (state : Blocks.State) (uid rootUID : option string).

Lemma rootAmong_Some blockOrder keys uid r :
  Blocks.rootAmong blockOrder keys uid = Some r →
  r ∈ keys ∧ includesIn (property blockOrder r) uid = true.
Proof.
  induction keys as [|k keys IH]; [done|]. simpl.
  destruct (includesIn (property blockOrder k) uid) eqn:Hk.
  - intros [= <-]. split; [left|done].
  - intros H. destruct (IH H). split; [by right|done].
Qed.

Lemma rootAmong_None blockOrder keys uid :
  Blocks.rootAmong blockOrder keys uid = None →
  ∀ k, k ∈ keys → includesIn (property blockOrder k) uid = false.
Proof.
  induction keys as [|k keys IH]; [by intros _ k' ?%elem_of_nil|]. simpl.
  destruct (includesIn (property blockOrder k) uid) eqn:Hk; [done|].
  intros H k' [->|Hin]%elem_of_cons; [done|by apply IH].
Qed.

Lemma property_key {V} (object : list (string * V)) key v :
  property object key = Some v → key ∈ object.*1.
Proof.
  induction object as [|[k v'] rest IH]; [done|]. simpl.
  case_decide as Hk; [intros _; subst; left|intros H; right; by apply IH].
Qed.

Lemma getBlockOrder_root state r :
  Blocks.getBlockOrder state (Some r) =
    default [] (property (Blocks.blockOrder (Blocks.present (Blocks.editor state))) r).
Proof.
  unfold Blocks.getBlockOrder, or_else, truthy.
  case_bool_decide as Hr; [done|]. by subst.
Qed.

(** X13. The root that [getBlockRootUID] finds for a block is one that has
    it among its children: [getBlockIndex] under that root is a position
    of the root's block order, and the block is what is found there. *)
Theorem root_has_block state uid r :
  Blocks.getBlockRootUID state uid = Some r →
  0 ≤ Blocks.getBlockIndex state uid (Some r) < Blocks.getBlockCount state (Some r) ∧
  Some <$> Blocks.getBlockOrder state (Some r)
             !! Z.to_nat (Blocks.getBlockIndex state uid (Some r)) = Some uid.
Proof.
  unfold Blocks.getBlockRootUID, Blocks.getBlockIndex, Blocks.getBlockCount.
  intros [_ Hinc]%rootAmong_Some. rewrite getBlockOrder_root.
  unfold includesIn in Hinc.
  destruct (property _ r) as [a|]; [|done]. simpl.
  apply bool_decide_eq_true in Hinc.
  pose proof (indexOf_bounds a uid).
  split; [lia|]. apply indexOf_lookup. lia.
Qed.

(** X14. A block has no root exactly when no block order holds it:
    [getBlockRootUID] returns null if and only if [getBlockIndex] is -1
    under every root that [blockOrder] has as a key of its own. *)
Theorem no_root_iff_nowhere state uid :
  Blocks.getBlockRootUID state uid = None ↔
  ∀ r, r ∈ (Blocks.blockOrder (Blocks.present (Blocks.editor state))).*1 →
       Blocks.getBlockIndex state uid (Some r) = -1.
Proof.
  unfold Blocks.getBlockRootUID, Blocks.getBlockIndex. split.
  - intros Hnone r Hr. rewrite getBlockOrder_root.
    pose proof (rootAmong_None _ _ _ Hnone r Hr) as Hinc.
    destruct (property _ r) as [a|]; simpl in *.
    + apply bool_decide_eq_false in Hinc.
      pose proof (indexOf_bounds a uid). lia.
    + done.
  - intros Hall.
    destruct (Blocks.rootAmong _ _ uid) as [r|] eqn:Hroot; [|done].
    apply rootAmong_Some in Hroot as [Hr Hinc].
    specialize (Hall r Hr). rewrite getBlockOrder_root in Hall.
    destruct (property _ r) as [a|]; [|done]. simpl in *.
    apply bool_decide_eq_true in Hinc. lia.
Qed.

End BlockOrder.

(** The slice from one position of an array up to and including another:
    its length, its first and its last element. *)
Lemma slice_span {A} (a : list A) (lo hi : nat) :
  (lo ≤ hi)%nat → (hi < length a)%nat →
  len (slice a (Z.of_nat lo) (Z.of_nat hi + 1)) = Z.of_nat hi - Z.of_nat lo + 1 ∧
  head (slice a (Z.of_nat lo) (Z.of_nat hi + 1)) = a !! lo ∧
  last (slice a (Z.of_nat lo) (Z.of_nat hi + 1)) = a !! hi.
Proof.
  intros Hlo Hhi.
  replace (Z.of_nat hi + 1) with (Z.of_nat (S hi)) by lia.
  rewrite slice_between by lia.
  assert (length (take (S hi - lo) (drop lo a)) = (S hi - lo)%nat) as Hlen.
  { rewrite length_take, length_drop. lia. }
  split; [unfold len; rewrite Hlen; lia|]. split.
  - rewrite head_lookup, lookup_take_lt, lookup_drop by lia. f_equal. lia.
  - rewrite last_lookup, Hlen, lookup_take_lt, lookup_drop by lia. f_equal. lia.
Qed.

Lemma head_elem {A} (l : list A) (x : A) : head l = Some x → x ∈ l.
Proof. destruct l; [done|]. intros [= ->]. left. Qed.

Lemma last_elem {A} (l : list A) (x : A) : last l = Some x → x ∈ l.
Proof.
  rewrite last_lookup. intros H. by eapply list_elem_of_lookup_2.
Qed.

Section Selection.
Implicit Types (state : Blocks.State) (uid : option string).

(** X15. The multi-selection does not depend on its direction: when both
    ends of the selection have the same root, exchanging them selects the
    same blocks. *)
Theorem multi_selection_symmetric state :
  Blocks.getBlockRootUID state (Blocks.start (Blocks.blockSelection state)) =
  Blocks.getBlockRootUID state (Blocks.end_ (Blocks.blockSelection state)) →
  Blocks.getMultiSelectedBlockUids (Blocks.reversed state) =
  Blocks.getMultiSelectedBlockUids state.
Proof.
  intros Hroot. unfold Blocks.getMultiSelectedBlockUids. simpl.
  change (Blocks.getBlockRootUID (Blocks.reversed state))
    with (Blocks.getBlockRootUID state).
  change (Blocks.getBlockOrder (Blocks.reversed state))
    with (Blocks.getBlockOrder state).
  rewrite <- Hroot.
  destruct (decide (Blocks.start _ = Blocks.end_ _)) as [Heq|Hne].
  - by rewrite decide_True.
  - rewrite decide_False by done.
    destruct (Blocks.getBlockRootUID state _) as [r|]; [|done].
    repeat case_decide; try done; try lia.
    by replace (indexOf (Blocks.getBlockOrder state (Some r))
                  (Blocks.end_ (Blocks.blockSelection state)))
      with (indexOf (Blocks.getBlockOrder state (Some r))
              (Blocks.start (Blocks.blockSelection state))) by lia.
Qed.

(** X16. A selection between two different blocks of one block order
    spans them: it has as many blocks as the distance of the two positions
    plus one, it begins with the end that comes first in the order and
    finishes with the other, and both ends are multi-selected. *)
Theorem multi_selection_span state r :
  Blocks.start (Blocks.blockSelection state) ≠ Blocks.end_ (Blocks.blockSelection state) →
  Blocks.getBlockRootUID state (Blocks.start (Blocks.blockSelection state)) = Some r →
  0 ≤ Blocks.getBlockIndex state (Blocks.end_ (Blocks.blockSelection state)) (Some r) →
  let startIndex :=
    Blocks.getBlockIndex state (Blocks.start (Blocks.blockSelection state)) (Some r) in
  let endIndex :=
    Blocks.getBlockIndex state (Blocks.end_ (Blocks.blockSelection state)) (Some r) in
  let uids := Blocks.getMultiSelectedBlockUids state in
  len uids = Z.abs (startIndex - endIndex) + 1 ∧
  Some <$> head uids = Some (if decide (startIndex < endIndex)
                             then Blocks.start (Blocks.blockSelection state)
                             else Blocks.end_ (Blocks.blockSelection state)) ∧
  Some <$> last uids = Some (if decide (startIndex < endIndex)
                             then Blocks.end_ (Blocks.blockSelection state)
                             else Blocks.start (Blocks.blockSelection state)) ∧
  Blocks.isBlockMultiSelected state (Blocks.start (Blocks.blockSelection state)) = true ∧
  Blocks.isBlockMultiSelected state (Blocks.end_ (Blocks.blockSelection state)) = true.
Proof.
  intros Hne Hroot Hend.
  destruct (root_has_block state _ r Hroot) as [Hstart _].
  unfold Blocks.isBlockMultiSelected, Blocks.getMultiSelectedBlockUids.
  unfold Blocks.getBlockIndex, Blocks.getBlockCount in *.
  rewrite decide_False, Hroot by done. cbv zeta.
  set (a := Blocks.getBlockOrder state (Some r)) in *.
  destruct (indexOf_spec a (Blocks.start (Blocks.blockSelection state)))
    as [[Hs _]|(i & s' & Hi & Hs & Hlooki & _)]; [lia|].
  destruct (indexOf_spec a (Blocks.end_ (Blocks.blockSelection state)))
    as [[He _]|(j & e' & Hj & He & Hlookj & _)]; [lia|].
  rewrite Hi, Hj, Hs, He in *.
  assert (i ≠ j) as Hij by (intros ->; congruence).
  pose proof (lookup_lt_Some _ _ _ Hlooki). pose proof (lookup_lt_Some _ _ _ Hlookj).
  destruct (decide (Z.of_nat i > Z.of_nat j)) as [Hgt|Hle].
  - destruct (slice_span a j i) as (Hlen & Hhead & Hlast); [lia|lia|].
    rewrite Hlen, Hhead, Hlast, Hlooki, Hlookj.
    repeat (destruct (decide (_ < _)); try lia).
    split; [lia|]. split; [done|]. split; [done|].
    rewrite !bool_decide_eq_true, !indexOf_elem. split.
    + apply last_elem. by rewrite Hlast.
    + apply head_elem. by rewrite Hhead.
  - destruct (slice_span a i j) as (Hlen & Hhead & Hlast); [lia|lia|].
    rewrite Hlen, Hhead, Hlast, Hlooki, Hlookj.
    repeat (destruct (decide (_ < _)); try lia).
    split; [lia|]. split; [done|]. split; [done|].
    rewrite !bool_decide_eq_true, !indexOf_elem. split.
    + apply head_elem. by rewrite Hhead.
    + apply last_elem. by rewrite Hlast.
Qed.

(** X17. A selection whose end is not among the siblings of its start: the
    negative position that [indexOf] returns for the end is handed to
    [slice], and the selection is empty, unless the start is the last of
    its siblings, in which case it is the start alone. *)
Theorem multi_selection_end_elsewhere state r :
  Blocks.start (Blocks.blockSelection state) ≠ Blocks.end_ (Blocks.blockSelection state) →
  Blocks.getBlockRootUID state (Blocks.start (Blocks.blockSelection state)) = Some r →
  Blocks.getBlockIndex state (Blocks.end_ (Blocks.blockSelection state)) (Some r) = -1 →
  Blocks.getMultiSelectedBlockUids state =
    if decide (Blocks.getBlockIndex state (Blocks.start (Blocks.blockSelection state)) (Some r)
               = Blocks.getBlockCount state (Some r) - 1)
    then option_list (Blocks.start (Blocks.blockSelection state))
    else [].
Proof.
  intros Hne Hroot Hend.
  destruct (root_has_block state _ r Hroot) as [Hstart _].
  unfold Blocks.getMultiSelectedBlockUids.
  unfold Blocks.getBlockIndex, Blocks.getBlockCount in *.
  rewrite decide_False, Hroot by done. cbv zeta.
  set (a := Blocks.getBlockOrder state (Some r)) in *.
  destruct (indexOf_spec a (Blocks.start (Blocks.blockSelection state)))
    as [[Hs _]|(i & s' & Hi & Hs & Hlooki & _)]; [lia|].
  rewrite Hs in *. rewrite Hend, Hi in *.
  destruct (decide (_ > _)) as [_|]; [|lia].
  unfold slice, relative.
  rewrite (decide_True (P := -1 < 0)), (decide_False (P := Z.of_nat i + 1 < 0)) by lia.
  rewrite Z.max_l, Z.min_l by lia.
  case_decide as Hlast.
  - replace (Z.to_nat (Z.of_nat i + 1 - (len a + -1))) with 1%nat by lia.
    replace (Z.to_nat (len a + -1)) with i by lia.
    rewrite (drop_S _ _ _ Hlooki). done.
  - replace (Z.to_nat (Z.of_nat i + 1 - (len a + -1))) with 0%nat by lia. done.
Qed.

(** X18. A block is never both selected and multi-selected. *)
Theorem selected_not_multi_selected state (u : string) :
  Blocks.isBlockSelected state u = true →
  Blocks.isBlockMultiSelected state (Some u) = false.
Proof.
  unfold Blocks.isBlockSelected, Blocks.isBlockMultiSelected,
    Blocks.getMultiSelectedBlockUids.
  case_decide as Hne; [done|]. intros _.
  rewrite decide_True by done. apply bool_decide_eq_false. by intros [].
Qed.

Lemma multi_selection_NoDup state :
  (∀ rootUID, NoDup (Blocks.getBlockOrder state rootUID)) →
  NoDup (Blocks.getMultiSelectedBlockUids state).
Proof.
  intros Hnodup. unfold Blocks.getMultiSelectedBlockUids.
  case_decide; [constructor|].
  destruct (Blocks.getBlockRootUID state _) as [r|]; [|constructor].
  assert (∀ i j, NoDup (slice (Blocks.getBlockOrder state (Some r)) i j)) as Hslice.
  { intros i j. unfold slice. eapply sublist_NoDup; [apply (Hnodup (Some r))|].
    etrans; [apply sublist_take|apply sublist_drop]. }
  case_decide; apply Hslice.
Qed.

(** X19. With no block listed twice in a block order, a block is within
    the selection exactly when it is multi-selected and is not the last of
    the multi-selected blocks. *)
Theorem within_selection_iff state (u : string) :
  (∀ rootUID, NoDup (Blocks.getBlockOrder state rootUID)) →
  u ≠ ""%string →
  Blocks.isBlockWithinSelection state (Some u) = true ↔
  Blocks.isBlockMultiSelected state (Some u) = true ∧
  Blocks.getLastMultiSelectedBlockUid state ≠ Some u.
Proof.
  intros Hnodup%multi_selection_NoDup Hu.
  unfold Blocks.isBlockWithinSelection, Blocks.isBlockMultiSelected,
    Blocks.getLastMultiSelectedBlockUid.
  set (uids := Blocks.getMultiSelectedBlockUids state) in *.
  assert (truthy (Some u) = true) as -> by by apply bool_decide_eq_true.
  simpl. rewrite andb_true_iff, !bool_decide_eq_true.
  pose proof (indexOf_bounds uids (Some u)) as Hbounds.
  assert (or_else (last uids) None = Some u ↔ last uids = Some u) as ->.
  { unfold or_else, truthy. destruct (last uids) as [l|]; [|done].
    case_bool_decide as Hl; [done|]. split; [done|]. intros [= ->]. done. }
  rewrite last_lookup.
  destruct (indexOf_spec uids (Some u)) as [[Hi _]|(i & y & Hi & [= <-] & Hlook & _)].
  - rewrite Hi. split; [lia|]. intros [? _]. done.
  - rewrite Hi in *. pose proof (lookup_lt_Some _ _ _ Hlook) as Hlt. unfold len. split.
    + intros [_ Hbefore]. split; [lia|]. intros Hlast.
      pose proof (NoDup_lookup _ _ _ _ Hnodup Hlook Hlast). lia.
    + intros [_ Hnotlast]. split; [lia|].
      destruct (decide (i = pred (length uids))) as [->|]; [done|lia].
Qed.

(** X20. Whenever [blockSelection.start] is a block, at least one block
    counts as selected; and when it is null, none does. *)
Theorem selected_block_count state :
  (truthy (Blocks.start (Blocks.blockSelection state)) = true →
     1 ≤ Blocks.getSelectedBlockCount state) ∧
  (Blocks.start (Blocks.blockSelection state) = None →
     Blocks.getSelectedBlockCount state = 0).
Proof.
  unfold Blocks.getSelectedBlockCount. split.
  - intros ->. pose proof (len_nonneg (Blocks.getMultiSelectedBlockUids state)).
    case_decide; lia.
  - intros Hstart. unfold Blocks.getMultiSelectedBlockUids, Blocks.getBlockRootUID.
    rewrite Hstart.
    assert (∀ blockOrder keys, Blocks.rootAmong blockOrder keys None = None) as ->.
    { intros blockOrder keys. induction keys as [|k keys IH]; [done|]. simpl.
      unfold includesIn. destruct (property blockOrder k) as [a|]; [|done].
      by rewrite indexOf_null. }
    by destruct (decide (None = _)).
Qed.

(** X21. First and last follow the order of the document, start and end
    the order of the selection: in a selection between two different
    blocks of one block order, the first multi-selected block is the start
    of the selection when the start comes first in the order, and its end
    otherwise; the last multi-selected block is the other one. *)
Theorem first_and_last_follow_order state r :
  Blocks.start (Blocks.blockSelection state) ≠ Blocks.end_ (Blocks.blockSelection state) →
  Blocks.getBlockRootUID state (Blocks.start (Blocks.blockSelection state)) = Some r →
  0 ≤ Blocks.getBlockIndex state (Blocks.end_ (Blocks.blockSelection state)) (Some r) →
  truthy (Blocks.start (Blocks.blockSelection state)) = true →
  truthy (Blocks.end_ (Blocks.blockSelection state)) = true →
  let startIndex :=
    Blocks.getBlockIndex state (Blocks.start (Blocks.blockSelection state)) (Some r) in
  let endIndex :=
    Blocks.getBlockIndex state (Blocks.end_ (Blocks.blockSelection state)) (Some r) in
  Blocks.getFirstMultiSelectedBlockUid state =
    (if decide (startIndex < endIndex) then Blocks.getMultiSelectedBlocksStartUid state
     else Blocks.getMultiSelectedBlocksEndUid state) ∧
  Blocks.getLastMultiSelectedBlockUid state =
    (if decide (startIndex < endIndex) then Blocks.getMultiSelectedBlocksEndUid state
     else Blocks.getMultiSelectedBlocksStartUid state).
Proof.
  intros Hne Hroot Hend Htstart Htend.
  destruct (root_has_block state _ r Hroot) as [Hstart _].
  unfold Blocks.getFirstMultiSelectedBlockUid, Blocks.getLastMultiSelectedBlockUid,
    Blocks.getMultiSelectedBlocksStartUid, Blocks.getMultiSelectedBlocksEndUid,
    Blocks.getMultiSelectedBlockUids.
  unfold Blocks.getBlockIndex, Blocks.getBlockCount in *.
  rewrite !decide_False, Hroot by done. cbv zeta.
  set (a := Blocks.getBlockOrder state (Some r)) in *.
  destruct (indexOf_spec a (Blocks.start (Blocks.blockSelection state)))
    as [[Hs _]|(i & s' & Hi & Hs & Hlooki & _)]; [lia|].
  destruct (indexOf_spec a (Blocks.end_ (Blocks.blockSelection state)))
    as [[He _]|(j & e' & Hj & He & Hlookj & _)]; [lia|].
  rewrite Hs, He in *. rewrite Hi, Hj in *.
  assert (i ≠ j) as Hij by (intros ->; congruence).
  pose proof (lookup_lt_Some _ _ _ Hlooki). pose proof (lookup_lt_Some _ _ _ Hlookj).
  unfold or_else. rewrite Htstart, Htend.
  destruct (decide (Z.of_nat i > Z.of_nat j)) as [Hgt|Hle].
  - destruct (slice_span a j i) as (_ & Hhead & Hlast); [lia|lia|].
    rewrite Hhead, Hlast, Hlooki, Hlookj, Htstart, Htend.
    destruct (decide (Some s' = Some e')); [done|].
    by repeat (destruct (decide (_ < _)); try lia).
  - destruct (slice_span a i j) as (_ & Hhead & Hlast); [lia|lia|].
    rewrite Hhead, Hlast, Hlooki, Hlookj, Htstart, Htend.
    destruct (decide (Some s' = Some e')); [done|].
    by repeat (destruct (decide (_ < _)); try lia).
Qed.

End Selection.

(** ** The post selectors *)

Section PostSelectors.
Implicit Types (state : Post.State).

(** X25. The edited title is never undefined, and it is the edited [title]
    attribute whenever that attribute is truthy. *)
Theorem title_agrees_with_attribute state :
  Post.getEditedPostTitle state ≠ JUndefined ∧
  (toBoolean (Post.getEditedPostAttribute state "title") = true →
   Post.getEditedPostTitle state = Post.getEditedPostAttribute state "title").
Proof.
  unfold Post.getEditedPostTitle, Post.getEditedPostAttribute, Post.getCurrentPost.
  destruct (decide (prop (Post.getPostEdits state) "title" = JUndefined)) as [Hu|Hd].
  - rewrite decide_False by (by intros Hne; apply Hne).
    destruct (toBoolean (prop (Post.currentPost state) "title")) eqn:Ht; simpl.
    + split; [|done]. intros Heq. rewrite Heq in Ht. done.
    + split; done.
  - rewrite decide_True by done. done.
Qed.

(** X26. The edited excerpt is the edited [excerpt] attribute as long as
    the state has edits; without edits [getEditedPostExcerpt] throws, where
    [getEditedPostAttribute] answers with the excerpt of the saved post. *)
Theorem excerpt_agrees_with_attribute state :
  (is_Some (Post.edits (Post.present (Post.editor state))) →
   Post.getEditedPostExcerpt state = Some (Post.getEditedPostAttribute state "excerpt")) ∧
  (Post.edits (Post.present (Post.editor state)) = None →
   Post.getEditedPostExcerpt state = None ∧
   Post.getEditedPostAttribute state "excerpt" = prop (Post.currentPost state) "excerpt").
Proof.
  unfold Post.getEditedPostExcerpt, Post.getEditedPostAttribute, Post.getPostEdits.
  split.
  - intros [e ->]. done.
  - intros ->. done.
Qed.

End PostSelectors.

(** ** The further laws on the records of the test-suite *)

Lemma control_never_calls_reducer_witness :
  Merged.enhanced counter no_options 0%nat (Some 2%nat) UNDO test_store
    = Merged.enhanced forgetful reset_options 0%nat (Some 2%nat) UNDO test_store ∧
  ∃ p' σ', Merged.enhanced counter no_options 0%nat (Some 2%nat) UNDO test_store
             = Some (p', σ') ∧ world σ' = world test_store.
Proof.
  apply (control_never_calls_reducer counter no_options 0%nat forgetful
           reset_options test_store 2%nat
           {| Merged.past := [ref 0; ref 1]; Merged.present := ref 1;
              Merged.future := [] |}
           UNDO);
    [reflexivity|].
  left. reflexivity.
Defined.

Lemma navigation_preserves_timeline_witness :
  ∃ p' σ' s',
    dispatchAll (Merged.enhanced counter no_options 0%nat) (Some 2%nat)
      [UNDO; REDO; UNDO] test_store = Some (Some p', σ') ∧
    objects σ' !! p' = Some s' ∧
    committed s' ∧
    Merged.past s' ++ Merged.future s' = [ref 0; ref 1].
Proof.
  apply (navigation_preserves_timeline counter no_options 0%nat [UNDO; REDO; UNDO]
           test_store 2%nat
           {| Merged.past := [ref 0; ref 1]; Merged.present := ref 1;
              Merged.future := [] |});
    [reflexivity|reflexivity|].
  repeat constructor; (by left) || (by right).
Defined.

Lemma edits_keep_history_witness :
  ∃ p' σ' s',
    dispatchAll (Merged.enhanced counter reset_options 0%nat) (Some 2%nat)
      [INCREMENT; empty_action] test_store = Some (Some p', σ') ∧
    objects σ' !! p' = Some s' ∧
    Merged.past s' = [ref 0; ref 1] ∧
    Merged.future s' = [] ∧
    (Merged.present s', world σ') = (ref 2, [0; 1; 2]).
Proof.
  apply (edits_keep_history counter reset_options 0%nat [INCREMENT; empty_action]
           test_store 2%nat
           {| Merged.past := [ref 0; ref 1]; Merged.present := ref 1;
              Merged.future := [] |});
    [reflexivity|].
  repeat constructor; try reflexivity; intros [H|[H|H]]; discriminate H.
Defined.

Lemma undo_reverts_checkpointed_edit_witness :
  (counter (ref 1) INCREMENT (world test_store)).1 ≠ ref 1 ∧
  returns (dispatch3 counter no_options 0%nat 2%nat INCREMENT CREATE_UNDO_LEVEL UNDO)
    test_store
    (λ s', s' = {| Merged.past := [ref 0; ref 1]; Merged.present := ref 1;
                   Merged.future := [ref 2] |}).
Proof.
  split; [discriminate|].
  apply (undo_reverts_checkpointed_edit counter no_options 0%nat test_store 2%nat
           {| Merged.past := [ref 0; ref 1]; Merged.present := ref 1;
              Merged.future := [] |}
           INCREMENT CREATE_UNDO_LEVEL UNDO);
    [reflexivity|reflexivity|discriminate| |discriminate|reflexivity|reflexivity].
  split; [|reflexivity]. intros [H|[H|H]]; discriminate H.
Defined.

Lemma undo_redo_restores_present_witness :
  ¬ committed {| Merged.past := [ref 0]; Merged.present := ref 1; Merged.future := [] |} ∧
  returns (undo_redo counter no_options 0%nat 1%nat UNDO REDO) test_store
    (λ s', s' = {| Merged.past := [ref 0; ref 1]; Merged.present := ref 1;
                   Merged.future := [] |}).
Proof.
  split; [discriminate|].
  apply (undo_redo_restores_present counter no_options 0%nat test_store 1%nat
           {| Merged.past := [ref 0]; Merged.present := ref 1; Merged.future := [] |}
           UNDO REDO);
    [reflexivity|reflexivity|reflexivity|].
  left. discriminate.
Defined.

Lemma redo_undo_roundtrip_witness :
  returns (p1 ← Merged.enhanced counter no_options 0%nat (Some 2%nat) REDO;
           Merged.enhanced counter no_options 0%nat (Some p1) UNDO) undone_store
    (λ s', s' = {| Merged.past := [ref 0]; Merged.present := ref 0;
                   Merged.future := [ref 1] |}).
Proof.
  apply (redo_undo_roundtrip counter no_options 0%nat undone_store 2%nat
           {| Merged.past := [ref 0]; Merged.present := ref 0;
              Merged.future := [ref 1] |}
           REDO UNDO);
    [reflexivity|reflexivity|reflexivity|discriminate|discriminate].
Defined.

Lemma redo_predicted_by_selector_witness :
  hasEditorRedo fresh_state = false ↔
  Merged.enhanced counter no_options 0%nat (Some 0%nat) REDO test_store
    = Some (0%nat, test_store).
Proof.
  apply (redo_predicted_by_selector counter no_options 0%nat test_store 0%nat
           fresh_state REDO);
    reflexivity.
Defined.

Lemma buffered_boundary_noop_witness :
  Buffered.enhanced counter no_options 0%nat (Some 3%nat) UNDO buffered_store
    = Some (3%nat, buffered_store) ∧
  Buffered.enhanced counter no_options 0%nat (Some 1%nat) REDO buffered_store
    = Some (1%nat, buffered_store) ∧
  Buffered.enhanced counter no_options 0%nat (Some 0%nat) CREATE_UNDO_LEVEL buffered_store
    = Some (0%nat, buffered_store).
Proof.
  split; [|split].
  - apply (proj1 (buffered_boundary_noop counter no_options 0%nat buffered_store 3%nat
             {| Buffered.past := []; Buffered.present := ref 0;
                Buffered.buffer := ref 0; Buffered.future := [] |}
             UNDO eq_refl));
      reflexivity.
  - apply (proj1 (proj2 (buffered_boundary_noop counter no_options 0%nat buffered_store
             1%nat
             {| Buffered.past := [ref 0]; Buffered.present := ref 1;
                Buffered.buffer := ref 2; Buffered.future := [] |}
             REDO eq_refl)));
      reflexivity.
  - apply (proj2 (proj2 (buffered_boundary_noop counter no_options 0%nat buffered_store
             0%nat
             {| Buffered.past := [ref 0]; Buffered.present := ref 1;
                Buffered.buffer := ref 1; Buffered.future := [] |}
             CREATE_UNDO_LEVEL eq_refl)));
      reflexivity.
Defined.

Lemma buffered_present_is_buffer_witness :
  returns (Buffered.enhanced counter reset_options 0%nat (Some 1%nat) UNDO) buffered_store
    (λ s', Buffered.present s' = Buffered.buffer s') ∧
  returns (Buffered.enhanced counter reset_options 0%nat (Some 1%nat) RESET_HISTORY)
    buffered_store (λ s', Buffered.present s' = Buffered.buffer s') ∧
  returns (Buffered.enhanced counter reset_options 0%nat (Some 2%nat) REDO) buffered_store
    (λ s', Buffered.present s' = Buffered.buffer s').
Proof.
  split; [|split].
  - apply (proj1 (buffered_present_is_buffer counter reset_options 0%nat buffered_store
             1%nat
             {| Buffered.past := [ref 0]; Buffered.present := ref 1;
                Buffered.buffer := ref 2; Buffered.future := [] |}
             UNDO eq_refl)).
    left. reflexivity.
  - apply (proj1 (buffered_present_is_buffer counter reset_options 0%nat buffered_store
             1%nat
             {| Buffered.past := [ref 0]; Buffered.present := ref 1;
                Buffered.buffer := ref 2; Buffered.future := [] |}
             RESET_HISTORY eq_refl)).
    right. right. split; [reflexivity|]. intros [H|[H|H]]; discriminate H.
  - apply (proj2 (buffered_present_is_buffer counter reset_options 0%nat buffered_store
             2%nat
             {| Buffered.past := []; Buffered.present := ref 0;
                Buffered.buffer := ref 0; Buffered.future := [ref 1] |}
             REDO eq_refl));
      [reflexivity|discriminate].
Defined.

Lemma buffered_edits_keep_history_witness :
  ∃ p' σ' s',
    dispatchAll (Buffered.enhanced counter reset_options 0%nat) (Some 0%nat)
      [INCREMENT; empty_action] buffered_store = Some (Some p', σ') ∧
    objects σ' !! p' = Some s' ∧
    Buffered.past s' = [ref 0] ∧
    Buffered.present s' = ref 1 ∧
    Buffered.future s' = [] ∧
    (Buffered.buffer s', world σ') = (ref 3, [0; 1; 2; 2]).
Proof.
  apply (buffered_edits_keep_history counter reset_options 0%nat [INCREMENT; empty_action]
           buffered_store 0%nat
           {| Buffered.past := [ref 0]; Buffered.present := ref 1;
              Buffered.buffer := ref 1; Buffered.future := [] |});
    [reflexivity|].
  repeat constructor; try reflexivity; intros [H|[H|H]]; discriminate H.
Defined.

Lemma buffered_undo_redo_roundtrip_witness :
  ∃ p' σ',
    buffered_undo_redo counter no_options 0%nat 0%nat UNDO REDO buffered_store
      = Some (p', σ') ∧
    p' ≠ 0%nat ∧
    objects σ' !! p' = Some {| Buffered.past := [ref 0]; Buffered.present := ref 1;
                               Buffered.buffer := ref 1; Buffered.future := [] |}.
Proof.
  apply (buffered_undo_redo_roundtrip counter no_options 0%nat buffered_store 0%nat
           {| Buffered.past := [ref 0]; Buffered.present := ref 1;
              Buffered.buffer := ref 1; Buffered.future := [] |}
           UNDO REDO);
    [reflexivity|reflexivity|reflexivity|reflexivity|discriminate].
Defined.

Lemma correspondence_step_witness :
  in_step counter no_options 0%nat 0%nat buffered_store 0%nat merged_store 0%nat UNDO ∧
  in_step counter no_options 0%nat 0%nat buffered_store 1%nat merged_store 1%nat INCREMENT.
Proof.
  split.
  - apply (correspondence_step counter no_options 0%nat 0%nat buffered_store 0%nat
             {| Buffered.past := [ref 0]; Buffered.present := ref 1;
                Buffered.buffer := ref 1; Buffered.future := [] |}
             merged_store 0%nat
             {| Merged.past := [ref 0; ref 1]; Merged.present := ref 1;
                Merged.future := [] |}
             UNDO);
      [reflexivity|reflexivity|reflexivity|repeat split|].
    intros (_ & Hpending & _). apply Hpending. reflexivity.
  - apply (correspondence_step counter no_options 0%nat 0%nat buffered_store 1%nat
             {| Buffered.past := [ref 0]; Buffered.present := ref 1;
                Buffered.buffer := ref 2; Buffered.future := [] |}
             merged_store 1%nat
             {| Merged.past := [ref 0; ref 1]; Merged.present := ref 2;
                Merged.future := [] |}
             INCREMENT);
      [reflexivity|reflexivity|reflexivity|repeat split|].
    intros (Hundo & _). discriminate Hundo.
Defined.

Lemma correspondence_broken_witness :
  ¬ in_step counter no_options 0%nat 0%nat buffered_store 1%nat merged_store 1%nat UNDO.
Proof.
  apply (correspondence_broken counter no_options 0%nat 0%nat buffered_store 1%nat
           {| Buffered.past := [ref 0]; Buffered.present := ref 1;
              Buffered.buffer := ref 2; Buffered.future := [] |}
           merged_store 1%nat
           {| Merged.past := [ref 0; ref 1]; Merged.present := ref 2;
              Merged.future := [] |}
           UNDO);
    [reflexivity|reflexivity|repeat split|reflexivity|discriminate|discriminate].
Defined.


(** ** The selectors on a sample document *)

Lemma sample_NoDup (state : Blocks.State) :
  Blocks.editor state = Blocks.editor Blocks.sample →
  ∀ rootUID, NoDup (Blocks.getBlockOrder state rootUID).
Proof.
  intros Heditor rootUID. unfold Blocks.getBlockOrder. rewrite Heditor. simpl.
  repeat case_decide; simpl; apply (bool_decide_unpack _); exact I.
Defined.

Lemma root_has_block_witness :
  0 ≤ Blocks.getBlockIndex Blocks.sample (Some "b2"%string) (Some "b"%string)
    < Blocks.getBlockCount Blocks.sample (Some "b"%string) ∧
  Some <$> Blocks.getBlockOrder Blocks.sample (Some "b"%string)
             !! Z.to_nat (Blocks.getBlockIndex Blocks.sample (Some "b2"%string)
                            (Some "b"%string))
    = Some (Some "b2"%string).
Proof.
  apply (root_has_block Blocks.sample (Some "b2"%string) "b"%string). reflexivity.
Defined.

Lemma multi_selection_symmetric_witness :
  Blocks.getMultiSelectedBlockUids (Blocks.reversed Blocks.sample) =
  Blocks.getMultiSelectedBlockUids Blocks.sample.
Proof.
  apply (multi_selection_symmetric Blocks.sample). reflexivity.
Defined.

Lemma multi_selection_span_witness :
  len (Blocks.getMultiSelectedBlockUids Blocks.sample) = 3 ∧
  Blocks.isBlockMultiSelected Blocks.sample (Some "a"%string) = true ∧
  Blocks.isBlockMultiSelected Blocks.sample (Some "c"%string) = true.
Proof.
  destruct (multi_selection_span Blocks.sample ""%string)
    as (Hlen & _ & _ & Hstart & Hend);
    [discriminate|reflexivity|discriminate|].
  split; [exact Hlen|]. split; [exact Hstart|exact Hend].
Defined.

Lemma multi_selection_end_elsewhere_witness :
  Blocks.getMultiSelectedBlockUids Blocks.across = ["c"%string].
Proof.
  apply (multi_selection_end_elsewhere Blocks.across ""%string);
    [discriminate|reflexivity|reflexivity].
Defined.

Lemma selected_not_multi_selected_witness :
  Blocks.isBlockMultiSelected Blocks.single (Some "a"%string) = false.
Proof.
  apply (selected_not_multi_selected Blocks.single "a"%string). reflexivity.
Defined.

Lemma within_selection_iff_witness :
  Blocks.isBlockWithinSelection Blocks.sample (Some "b"%string) = true ↔
  Blocks.isBlockMultiSelected Blocks.sample (Some "b"%string) = true ∧
  Blocks.getLastMultiSelectedBlockUid Blocks.sample ≠ Some "b"%string.
Proof.
  apply (within_selection_iff Blocks.sample "b"%string);
    [apply sample_NoDup; reflexivity|discriminate].
Defined.

Lemma selected_block_count_witness :
  1 ≤ Blocks.getSelectedBlockCount Blocks.sample.
Proof.
  apply (proj1 (selected_block_count Blocks.sample)). reflexivity.
Defined.

Lemma title_agrees_with_attribute_witness :
  Post.getEditedPostTitle Post.sample = Post.getEditedPostAttribute Post.sample "title".
Proof.
  apply (proj2 (title_agrees_with_attribute Post.sample)). reflexivity.
Defined.

Lemma excerpt_agrees_with_attribute_witness :
  Post.getEditedPostExcerpt Post.sample
    = Some (Post.getEditedPostAttribute Post.sample "excerpt") ∧
  Post.getEditedPostExcerpt Post.unedited = None.
Proof.
  split.
  - apply (proj1 (excerpt_agrees_with_attribute Post.sample)). by eexists.
  - apply (proj2 (excerpt_agrees_with_attribute Post.unedited)). reflexivity.
Defined.

Lemma first_and_last_follow_order_witness :
  Blocks.getFirstMultiSelectedBlockUid Blocks.sample = Some "a"%string ∧
  Blocks.getLastMultiSelectedBlockUid Blocks.sample = Some "c"%string.
Proof.
  apply (first_and_last_follow_order Blocks.sample ""%string);
    [discriminate|reflexivity|discriminate|reflexivity|reflexivity].
Defined.

Lemma no_root_iff_nowhere_witness :
  Blocks.getBlockRootUID Blocks.sample (Some "z"%string) = None ↔
  ∀ r, r ∈ (Blocks.blockOrder (Blocks.present (Blocks.editor Blocks.sample))).*1 →
       Blocks.getBlockIndex Blocks.sample (Some "z"%string) (Some r) = -1.
Proof.
  apply (no_root_iff_nowhere Blocks.sample (Some "z"%string)).
Defined.
